(** * CharacterGraph: the force-directed character network of gutenberg-analysis

    A shallow embedding of [frontend/components/CharacterGraph.tsx]: the
    construction of the simulation model from raw graph data, the camera
    transform, the per-frame force simulation, the pointer, wheel and
    keyboard handlers and the renderer; with it the colour helpers of
    [BookAnalysis.tsx] and the history of [utils/bookHistory.ts].

    Modelling conventions.
    - A JavaScript [number] is a real number.  Rounding, infinities and NaN
      are outside the model.
    - An array of mutable node objects is a [list] read with [!!] and
      written in place with [alter]; a loop over indices is a left fold
      over [seq 0 n].
    - [Math.random()] is a stream [nat -> R] of future draws.
    - React state is one record; an effect whose dependency changed is run
      as part of the transition that changed it.
    - The node tooltip holds one of the node objects itself, not a copy:
      the record keeps the index of that object in the current node array,
      and every assignment to the node objects is shown by the tooltip. *)

From Stdlib Require Import Reals Lra Lia Ascii String.
From stdpp Require Import gmap strings list.

Open Scope R_scope.

(** ** Data model (types/index.ts and the interfaces of CharacterGraph.tsx) *)

Module GraphNode.
Record t := mk {
  id : string;
  size : R;
  role : string;
  description : option string
}.
End GraphNode.

(** [value] and [type] are declared mandatory, but the component defends
    against their absence ([link.value || 2]), so they are optional here. *)
Module GraphLink.
Record t := mk {
  source : string;
  target : string;
  value : option R;
  type : option string
}.
End GraphLink.

Module GraphData.
Record t := mk {
  nodes : option (list GraphNode.t);
  links : option (list GraphLink.t)
}.
End GraphData.

Module ProcessedNode.
Record t := mk {
  id : string;
  size : R;
  role : string;
  description : option string;
  color : string;
  x : R;
  y : R;
  vx : R;
  vy : R
}.

Definition set_pos (px py : R) (n : t) : t :=
  mk (id n) (size n) (role n) (description n) (color n) px py (vx n) (vy n).
Definition set_vel (pvx pvy : R) (n : t) : t :=
  mk (id n) (size n) (role n) (description n) (color n) (x n) (y n) pvx pvy.
End ProcessedNode.

Module ProcessedLink.
Record t := mk {
  source : nat;
  target : nat;
  value : R;
  type : string
}.
End ProcessedLink.

Module ProcessedGraphData.
Record t := mk {
  nodes : list ProcessedNode.t;
  links : list ProcessedLink.t
}.
End ProcessedGraphData.

Module Transform.
Record t := mk {
  scale : R;
  translateX : R;
  translateY : R
}.
End Transform.

Module Dimensions.
Record t := mk {
  width : R;
  height : R
}.
End Dimensions.

(** The result of [getBoundingClientRect()]. *)
Module Rect.
Record t := mk {
  left : R;
  top : R;
  width : R;
  height : R
}.
End Rect.

Module NodeTooltip.
Record t := mk {
  node : ProcessedNode.t;
  x : R;
  y : R
}.
End NodeTooltip.

Module LinkTooltip.
Record t := mk {
  source : string;
  target : string;
  type : string;
  x : R;
  y : R
}.
End LinkTooltip.

(** ** JavaScript helpers *)

(** [v || d] on numbers: the fallback is taken when [v] is zero. *)
Definition num_or (v d : R) : R := if Req_dec_T v 0 then d else v.

(** [v || d] on a possibly missing number. *)
Definition opt_num_or (v : option R) (d : R) : R :=
  match v with
  | Some r => num_or r d
  | None => d
  end.

(** [v || d] on a possibly missing string: the empty string is falsy. *)
Definition opt_str_or (v : option string) (d : string) : string :=
  match v with
  | Some s => if decide (s = EmptyString) then d else s
  | None => d
  end.

(** [for (let i = 0; i < n; i++) body], threading the mutated store. *)
Definition for_range {S : Type} (n : nat) (body : nat -> S -> S) (s : S) : S :=
  foldl (fun acc i => body i acc) s (seq 0 n).

(** [for (const a of l) body]. *)
Definition for_of {A S : Type} (l : list A) (body : A -> S -> S) (s : S) : S :=
  foldl (fun acc a => body a acc) s l.

(** [toLowerCase()] on the ASCII letters; other bytes are kept. *)
Definition lower_ascii (c : ascii) : ascii :=
  let n := nat_of_ascii c in
  if ((65 <=? n)%nat && (n <=? 90)%nat)%bool then ascii_of_nat (n + 32) else c.

Fixpoint toLowerCase (s : string) : string :=
  match s with
  | EmptyString => EmptyString
  | String c r => String (lower_ascii c) (toLowerCase r)
  end.

(** ** GraphModel: the [graphData]/[dimensions] effect *)

Definition getNodeColor (role : string) : string :=
  let r := toLowerCase role in
  if decide (r = "main") then "#ff6b6b"
  else if decide (r = "supporting") then "#4ecdc4"
  else if decide (r = "minor") then "#ffd166"
  else "#6a89cc".

(** The callback of [graphData.nodes.map]: node [i] consumes the draws
    [2i] and [2i+1] of [Math.random()]. *)
Definition placeNode (width height : R) (random : nat -> R)
    (i : nat) (node : GraphNode.t) : ProcessedNode.t :=
  ProcessedNode.mk
    (GraphNode.id node) (GraphNode.size node) (GraphNode.role node)
    (GraphNode.description node)
    (getNodeColor (GraphNode.role node))
    (width / 2 + (random (2 * i)%nat - 0.5) * 200)
    (height / 2 + (random (2 * i + 1)%nat - 0.5) * 200)
    0 0.

(** [nodes.forEach((node, index) => nodeIndices.set(node.id, index))],
    started at [index]. *)
Fixpoint setNodeIndices (nodes : list ProcessedNode.t) (index : nat)
    (nodeIndices : gmap string nat) : gmap string nat :=
  match nodes with
  | [] => nodeIndices
  | node :: rest =>
      setNodeIndices rest (S index) (<[ProcessedNode.id node := index]> nodeIndices)
  end.

(** The callback of [graphData.links.map]: [None] is the [null] returned
    for an unresolved endpoint. *)
Definition resolveLink (nodeIndices : gmap string nat) (link : GraphLink.t)
    : option ProcessedLink.t :=
  let sourceId := GraphLink.source link in
  let targetId := GraphLink.target link in
  match nodeIndices !! sourceId with
  | None => None
  | Some s =>
      match nodeIndices !! targetId with
      | None => None
      | Some t =>
          Some (ProcessedLink.mk s t
                  (opt_num_or (GraphLink.value link) 2)
                  (opt_str_or (GraphLink.type link) "relationship"))
      end
  end.

(** [.filter(link => link !== null)]. *)
Fixpoint filterNotNull {A : Type} (l : list (option A)) : list A :=
  match l with
  | [] => []
  | Some a :: r => a :: filterNotNull r
  | None :: r => filterNotNull r
  end.

Definition buildNodes (dimensions : Dimensions.t) (random : nat -> R)
    (rawNodes : list GraphNode.t) : list ProcessedNode.t :=
  imap (placeNode (Dimensions.width dimensions) (Dimensions.height dimensions) random)
       rawNodes.

Definition buildLinks (nodes : list ProcessedNode.t) (rawLinks : list GraphLink.t)
    : list ProcessedLink.t :=
  let nodeIndices := setNodeIndices nodes 0 ∅ in
  filterNotNull (map (resolveLink nodeIndices) rawLinks).

(** The body of the effect: [None] when the guard returns early, so that
    [processedData] keeps its previous value. *)
Definition processGraphData (graphData : option GraphData.t)
    (dimensions : Dimensions.t) (random : nat -> R) : option ProcessedGraphData.t :=
  match graphData with
  | None => None
  | Some g =>
      match GraphData.nodes g, GraphData.links g with
      | Some rawNodes, Some rawLinks =>
          let nodes := buildNodes dimensions random rawNodes in
          Some (ProcessedGraphData.mk nodes (buildLinks nodes rawLinks))
      | _, _ => None
      end
  end.

(** ** CameraTransform *)

(** [screenToGraph], closed over the current [transform]. *)
Definition screenToGraph (transform : Transform.t) (screenX screenY : R) : R * R :=
  ((screenX - Transform.translateX transform) / Transform.scale transform,
   (screenY - Transform.translateY transform) / Transform.scale transform).

(** The inline conversion [p * scale + translate] of the hover code. *)
Definition graphToScreen (transform : Transform.t) (gx gy : R) : R * R :=
  (gx * Transform.scale transform + Transform.translateX transform,
   gy * Transform.scale transform + Transform.translateY transform).

Definition identityTransform : Transform.t := Transform.mk 1 0 0.

(** The part of [handleWheel] below the choice of [delta]: the range
    check on [newScale] and the recomputation of the translation. *)
Definition zoomAt (delta mouseX mouseY : R) (transform : Transform.t) : Transform.t :=
  let newScale := Transform.scale transform * delta in
  if Rlt_dec newScale 0.1 then transform
  else if Rgt_dec newScale 10 then transform
  else
    let scaleRatio := 1 - delta in
    let translateX :=
      Transform.translateX transform
      + scaleRatio * (mouseX - Transform.translateX transform) in
    let translateY :=
      Transform.translateY transform
      + scaleRatio * (mouseY - Transform.translateY transform) in
    Transform.mk newScale translateX translateY.

(** [const delta = e.deltaY < 0 ? 1.1 : 0.9]. *)
Definition wheelDelta (deltaY : R) : R := if Rlt_dec deltaY 0 then 1.1 else 0.9.

(** ** ForceSimulator: [simulateForces] *)

(** [dragNode === i] for [dragNode : number | null]. *)
Definition isDragNode (dragNode : option nat) (i : nat) : bool :=
  match dragNode with
  | Some d => Nat.eqb d i
  | None => false
  end.

Definition addVelocity (dvx dvy : R) (node : ProcessedNode.t) : ProcessedNode.t :=
  ProcessedNode.set_vel (ProcessedNode.vx node + dvx) (ProcessedNode.vy node + dvy) node.

Definition centeringForce (width height : R) (node : ProcessedNode.t) : R * R :=
  ((width / 2 - ProcessedNode.x node) * 0.005,
   (height / 2 - ProcessedNode.y node) * 0.005).

(** What one pass of the inner loop adds to [node.vx], [node.vy]. *)
Definition repulsionForce (node otherNode : ProcessedNode.t) : R * R :=
  let dx := ProcessedNode.x node - ProcessedNode.x otherNode in
  let dy := ProcessedNode.y node - ProcessedNode.y otherNode in
  let dist := num_or (sqrt (dx * dx + dy * dy)) 1 in
  let forceMagnitude := 1000 / (dist * dist) in
  ((dx / dist) * forceMagnitude, (dy / dist) * forceMagnitude).

(** The inner loop body at [j], writing node [i] in place. *)
Definition repulsionStep (i j : nat) (nodes : list ProcessedNode.t)
    : list ProcessedNode.t :=
  if Nat.eqb i j then nodes
  else
    match nodes !! j with
    | Some otherNode =>
        alter (fun node =>
                 addVelocity (repulsionForce node otherNode).1
                             (repulsionForce node otherNode).2 node) i nodes
    | None => nodes
    end.

(** The first loop body at [i]. *)
Definition forceStep (width height : R) (dragNode : option nat) (i : nat)
    (nodes : list ProcessedNode.t) : list ProcessedNode.t :=
  if isDragNode dragNode i then nodes
  else
    let nodes1 :=
      alter (fun node =>
               addVelocity (centeringForce width height node).1
                           (centeringForce width height node).2 node) i nodes in
    for_range (length nodes) (repulsionStep i) nodes1.

(** The spring term of a link, computed once from both endpoints. *)
Definition springForce (source target : ProcessedNode.t) (value : R) : R * R :=
  let dx := ProcessedNode.x target - ProcessedNode.x source in
  let dy := ProcessedNode.y target - ProcessedNode.y source in
  let dist := num_or (sqrt (dx * dx + dy * dy)) 1 in
  let forceMagnitude := (dist - 100) * 0.03 * Rmin value 10 in
  ((dx / dist) * forceMagnitude, (dy / dist) * forceMagnitude).

(** The second loop body: [source] and [target] may be the same object,
    so the target is altered in the store the source update produced. *)
Definition linkStep (dragNode : option nat) (link : ProcessedLink.t)
    (nodes : list ProcessedNode.t) : list ProcessedNode.t :=
  let s := ProcessedLink.source link in
  let t := ProcessedLink.target link in
  if ((length nodes <=? s)%nat || (length nodes <=? t)%nat)%bool then nodes
  else
    match nodes !! s, nodes !! t with
    | Some source, Some target =>
        let f := springForce source target (ProcessedLink.value link) in
        let nodes1 :=
          if isDragNode dragNode s then nodes
          else alter (addVelocity f.1 f.2) s nodes in
        if isDragNode dragNode t then nodes1
        else alter (addVelocity (- f.1) (- f.2)) t nodes1
    | _, _ => nodes
    end.

(** Integration, damping and the boundary clamp of one node. *)
Definition integrate (width height : R) (node : ProcessedNode.t) : ProcessedNode.t :=
  let x1 := ProcessedNode.x node + ProcessedNode.vx node in
  let y1 := ProcessedNode.y node + ProcessedNode.vy node in
  let vx1 := ProcessedNode.vx node * 0.9 in
  let vy1 := ProcessedNode.vy node * 0.9 in
  ProcessedNode.set_pos
    (Rmax 20 (Rmin (width - 20) x1))
    (Rmax 20 (Rmin (height - 20) y1))
    (ProcessedNode.set_vel vx1 vy1 node).

(** The third loop body at [i]. *)
Definition moveStep (width height : R) (dragNode : option nat) (i : nat)
    (nodes : list ProcessedNode.t) : list ProcessedNode.t :=
  if isDragNode dragNode i then nodes else alter (integrate width height) i nodes.

(** The three loops of one frame, on the node array. *)
Definition simulateNodes (dimensions : Dimensions.t) (dragNode : option nat)
    (links : list ProcessedLink.t) (nodes : list ProcessedNode.t)
    : list ProcessedNode.t :=
  let width := Dimensions.width dimensions in
  let height := Dimensions.height dimensions in
  let nodes1 := for_range (length nodes) (forceStep width height dragNode) nodes in
  let nodes2 := for_of links (linkStep dragNode) nodes1 in
  for_range (length nodes) (moveStep width height dragNode) nodes2.

Definition simulateForces (dimensions : Dimensions.t) (dragNode : option nat)
    (processedData : ProcessedGraphData.t) : ProcessedGraphData.t :=
  ProcessedGraphData.mk
    (simulateNodes dimensions dragNode
       (ProcessedGraphData.links processedData)
       (ProcessedGraphData.nodes processedData))
    (ProcessedGraphData.links processedData).

(** ** InteractionController: component state, hit-testing, handlers *)

(** The [useState] cells, the canvas rectangle and the draws still to
    come.  [tooltipNodeIndex] is the identity of the object in
    [tooltipNode.node]: [Some i] while it is the object at index [i] of
    [processedData.nodes], [None] when there is no node tooltip or when it
    holds an object of a node array that has been replaced since. *)
Record State := mkState {
  graphData : option GraphData.t;
  dimensions : Dimensions.t;
  tooltipNode : option NodeTooltip.t;
  tooltipLink : option LinkTooltip.t;
  isDragging : bool;
  dragNode : option nat;
  processedData : option ProcessedGraphData.t;
  transform : Transform.t;
  isPanning : bool;
  lastMousePos : R * R;
  canvas : option Rect.t;
  random : nat -> R;
  tooltipNodeIndex : option nat
}.

Definition setTransform (t : Transform.t) (st : State) : State :=
  mkState (graphData st) (dimensions st) (tooltipNode st) (tooltipLink st)
    (isDragging st) (dragNode st) (processedData st) t (isPanning st)
    (lastMousePos st) (canvas st) (random st) (tooltipNodeIndex st).

Definition setIsPanning (b : bool) (st : State) : State :=
  mkState (graphData st) (dimensions st) (tooltipNode st) (tooltipLink st)
    (isDragging st) (dragNode st) (processedData st) (transform st) b
    (lastMousePos st) (canvas st) (random st) (tooltipNodeIndex st).

Definition setLastMousePos (p : R * R) (st : State) : State :=
  mkState (graphData st) (dimensions st) (tooltipNode st) (tooltipLink st)
    (isDragging st) (dragNode st) (processedData st) (transform st) (isPanning st)
    p (canvas st) (random st) (tooltipNodeIndex st).

Definition setIsDragging (b : bool) (st : State) : State :=
  mkState (graphData st) (dimensions st) (tooltipNode st) (tooltipLink st)
    b (dragNode st) (processedData st) (transform st) (isPanning st)
    (lastMousePos st) (canvas st) (random st) (tooltipNodeIndex st).

Definition setDragNode (d : option nat) (st : State) : State :=
  mkState (graphData st) (dimensions st) (tooltipNode st) (tooltipLink st)
    (isDragging st) d (processedData st) (transform st) (isPanning st)
    (lastMousePos st) (canvas st) (random st) (tooltipNodeIndex st).

Definition setTooltipNode (n : option NodeTooltip.t) (st : State) : State :=
  mkState (graphData st) (dimensions st) n (tooltipLink st)
    (isDragging st) (dragNode st) (processedData st) (transform st) (isPanning st)
    (lastMousePos st) (canvas st) (random st) (tooltipNodeIndex st).

Definition setTooltipLink (l : option LinkTooltip.t) (st : State) : State :=
  mkState (graphData st) (dimensions st) (tooltipNode st) l
    (isDragging st) (dragNode st) (processedData st) (transform st) (isPanning st)
    (lastMousePos st) (canvas st) (random st) (tooltipNodeIndex st).

Definition setProcessedData (p : option ProcessedGraphData.t) (st : State) : State :=
  mkState (graphData st) (dimensions st) (tooltipNode st) (tooltipLink st)
    (isDragging st) (dragNode st) p (transform st) (isPanning st)
    (lastMousePos st) (canvas st) (random st) (tooltipNodeIndex st).

Definition setDimensions (d : Dimensions.t) (st : State) : State :=
  mkState (graphData st) d (tooltipNode st) (tooltipLink st)
    (isDragging st) (dragNode st) (processedData st) (transform st) (isPanning st)
    (lastMousePos st) (canvas st) (random st) (tooltipNodeIndex st).

Definition setGraphData (g : option GraphData.t) (st : State) : State :=
  mkState g (dimensions st) (tooltipNode st) (tooltipLink st)
    (isDragging st) (dragNode st) (processedData st) (transform st) (isPanning st)
    (lastMousePos st) (canvas st) (random st) (tooltipNodeIndex st).

Definition setTooltipNodeIndex (i : option nat) (st : State) : State :=
  mkState (graphData st) (dimensions st) (tooltipNode st) (tooltipLink st)
    (isDragging st) (dragNode st) (processedData st) (transform st) (isPanning st)
    (lastMousePos st) (canvas st) (random st) i.

Definition setRandom (r : nat -> R) (st : State) : State :=
  mkState (graphData st) (dimensions st) (tooltipNode st) (tooltipLink st)
    (isDragging st) (dragNode st) (processedData st) (transform st) (isPanning st)
    (lastMousePos st) (canvas st) r (tooltipNodeIndex st).

(** The state of a freshly mounted component, before any effect ran. *)
Definition initialState (g : option GraphData.t) (cv : option Rect.t)
    (rnd : nat -> R) : State :=
  mkState g (Dimensions.mk 800 600) None None false None None
    identityTransform false (0, 0) cv rnd None.

(** [distance < nodeRadius] of both node loops. *)
Definition nodeHit (gx gy : R) (node : ProcessedNode.t) : bool :=
  let dx := ProcessedNode.x node - gx in
  let dy := ProcessedNode.y node - gy in
  let distance := sqrt (dx * dx + dy * dy) in
  let nodeRadius := ProcessedNode.size node / 2 + 4 in
  if Rlt_dec distance nodeRadius then true else false.

(** The node loop with its [break]: the first index, from [i] on, whose
    node contains the point. *)
Fixpoint findNodeAt (gx gy : R) (i : nat) (nodes : list ProcessedNode.t)
    : option (nat * ProcessedNode.t) :=
  match nodes with
  | [] => None
  | node :: rest =>
      if nodeHit gx gy node then Some (i, node)
      else findNodeAt gx gy (S i) rest
  end.

(** Distance from the point to the segment [source]-[target]. *)
Definition segmentDistance (gx gy : R) (source target : ProcessedNode.t) : R :=
  let A := gx - ProcessedNode.x source in
  let B := gy - ProcessedNode.y source in
  let C := ProcessedNode.x target - ProcessedNode.x source in
  let D := ProcessedNode.y target - ProcessedNode.y source in
  let dot := A * C + B * D in
  let len_sq := C * C + D * D in
  let param := if Req_dec_T len_sq 0 then -1 else dot / len_sq in
  let xx :=
    if Rlt_dec param 0 then ProcessedNode.x source
    else if Rgt_dec param 1 then ProcessedNode.x target
    else ProcessedNode.x source + param * C in
  let yy :=
    if Rlt_dec param 0 then ProcessedNode.y source
    else if Rgt_dec param 1 then ProcessedNode.y target
    else ProcessedNode.y source + param * D in
  let dx := gx - xx in
  let dy := gy - yy in
  sqrt (dx * dx + dy * dy).

(** One pass of the link loop: [None] is [continue] or a miss. *)
Definition linkHit (transform : Transform.t) (nodes : list ProcessedNode.t)
    (gx gy : R) (link : ProcessedLink.t) : option LinkTooltip.t :=
  match nodes !! ProcessedLink.source link, nodes !! ProcessedLink.target link with
  | Some source, Some target =>
      let distance := segmentDistance gx gy source target in
      let detectionRadius := 5 / Transform.scale transform in
      if Rlt_dec distance detectionRadius then
        let midX := (ProcessedNode.x source + ProcessedNode.x target) / 2 in
        let midY := (ProcessedNode.y source + ProcessedNode.y target) / 2 in
        Some (LinkTooltip.mk (ProcessedNode.id source) (ProcessedNode.id target)
                (ProcessedLink.type link)
                (graphToScreen transform midX midY).1
                (graphToScreen transform midX midY).2)
      else None
  | _, _ => None
  end.

(** The link loop with its [break]. *)
Fixpoint findLinkAt (transform : Transform.t) (nodes : list ProcessedNode.t)
    (gx gy : R) (links : list ProcessedLink.t) : option LinkTooltip.t :=
  match links with
  | [] => None
  | link :: rest =>
      match linkHit transform nodes gx gy link with
      | Some hoveredLink => Some hoveredLink
      | None => findLinkAt transform nodes gx gy rest
      end
  end.

(** [setTooltipNode(hoveredNode)], where [hoveredNode.node] is the node
    object at index [i] itself. *)
Definition showNodeTooltip (i : nat) (tip : NodeTooltip.t) (st : State) : State :=
  setTooltipNodeIndex (Some i) (setTooltipNode (Some tip) st).

(** [setTooltipNode(null)]. *)
Definition clearNodeTooltip (st : State) : State :=
  setTooltipNodeIndex None (setTooltipNode None st).

(** What the assignments to the fields of the node objects mean for the
    tooltip: [tooltipNode.node], being one of these objects, reads the
    values which that object has now; the screen point stored beside it is
    a pair of numbers and stays. *)
Definition liveTooltipNode (st : State) : option NodeTooltip.t :=
  match tooltipNodeIndex st, tooltipNode st, processedData st with
  | Some i, Some tip, Some pd =>
      match ProcessedGraphData.nodes pd !! i with
      | Some node => Some (NodeTooltip.mk node (NodeTooltip.x tip) (NodeTooltip.y tip))
      | None => tooltipNode st
      end
  | _, _, _ => tooltipNode st
  end.

Definition refreshTooltipNode (st : State) : State :=
  setTooltipNode (liveTooltipNode st) st.

(** The model after assignments to the fields of its node objects; the
    objects themselves, and so the one in the tooltip, are the same as
    before. *)
Definition assignNodes (pd : ProcessedGraphData.t) (st : State) : State :=
  refreshTooltipNode (setProcessedData (Some pd) st).

(** The hover branch of [handleMouseMove]. *)
Definition hover (gx gy : R) (pd : ProcessedGraphData.t) (st : State) : State :=
  match findNodeAt gx gy 0 (ProcessedGraphData.nodes pd) with
  | Some (i, node) =>
      let p := graphToScreen (transform st) (ProcessedNode.x node) (ProcessedNode.y node) in
      setTooltipLink None (showNodeTooltip i (NodeTooltip.mk node p.1 p.2) st)
  | None =>
      match findLinkAt (transform st) (ProcessedGraphData.nodes pd) gx gy
              (ProcessedGraphData.links pd) with
      | Some hoveredLink => setTooltipLink (Some hoveredLink) (clearNodeTooltip st)
      | None => setTooltipLink None (clearNodeTooltip st)
      end
  end.

(** The drag branch: the four assignments to the dragged node object. *)
Definition dragTo (gx gy : R) (node : ProcessedNode.t) : ProcessedNode.t :=
  ProcessedNode.set_vel 0 0 (ProcessedNode.set_pos gx gy node).

Definition handleMouseMove (clientX clientY : R) (st : State) : State :=
  match canvas st with
  | None => st
  | Some rect =>
      let screenX := clientX - Rect.left rect in
      let screenY := clientY - Rect.top rect in
      if isPanning st then
        let dx := screenX - (lastMousePos st).1 in
        let dy := screenY - (lastMousePos st).2 in
        let prev := transform st in
        setLastMousePos (screenX, screenY)
          (setTransform
             (Transform.mk (Transform.scale prev)
                (Transform.translateX prev + dx)
                (Transform.translateY prev + dy)) st)
      else
        let g := screenToGraph (transform st) screenX screenY in
        match isDragging st, dragNode st, processedData st with
        | true, Some d, Some pd =>
            assignNodes
              (ProcessedGraphData.mk
                 (alter (dragTo g.1 g.2) d (ProcessedGraphData.nodes pd))
                 (ProcessedGraphData.links pd)) st
        | _, _, Some pd => hover g.1 g.2 pd st
        | _, _, None => st
        end
  end.

Definition handleMouseDown (clientX clientY : R) (buttons : nat) (altKey : bool)
    (st : State) : State :=
  match canvas st, processedData st with
  | Some rect, Some pd =>
      let screenX := clientX - Rect.left rect in
      let screenY := clientY - Rect.top rect in
      if (Nat.eqb buttons 4 || (Nat.eqb buttons 1 && altKey))%bool then
        setLastMousePos (screenX, screenY) (setIsPanning true st)
      else
        let g := screenToGraph (transform st) screenX screenY in
        match findNodeAt g.1 g.2 0 (ProcessedGraphData.nodes pd) with
        | Some (i, _) => setDragNode (Some i) (setIsDragging true st)
        | None => st
        end
  | _, _ => st
  end.

Definition handleMouseUp (st : State) : State :=
  setIsPanning false (setDragNode None (setIsDragging false st)).

Definition handleWheel (clientX clientY deltaY : R) (st : State) : State :=
  match canvas st with
  | None => st
  | Some rect =>
      let mouseX := clientX - Rect.left rect in
      let mouseY := clientY - Rect.top rect in
      setTransform (zoomAt (wheelDelta deltaY) mouseX mouseY (transform st)) st
  end.

Definition handleKeyDown (key : string) (st : State) : State :=
  let st1 :=
    if (bool_decide (key = "r") || bool_decide (key = "R"))%bool
    then setTransform identityTransform st else st in
  if (bool_decide (key = "Alt") && negb (isPanning st))%bool then
    let st2 := setIsPanning true st1 in
    match canvas st with
    | Some rect => setLastMousePos (Rect.width rect / 2, Rect.height rect / 2) st2
    | None => st2
    end
  else st1.

Definition handleKeyUp (key : string) (st : State) : State :=
  if bool_decide (key = "Alt") then setIsPanning false st else st.

(** The three buttons under the canvas. *)
Definition clickZoomIn (st : State) : State :=
  let prev := transform st in
  setTransform
    (Transform.mk (Rmin (Transform.scale prev * 1.2) 10)
       (Transform.translateX prev) (Transform.translateY prev)) st.

Definition clickZoomOut (st : State) : State :=
  let prev := transform st in
  setTransform
    (Transform.mk (Rmax (Transform.scale prev / 1.2) 0.1)
       (Transform.translateX prev) (Transform.translateY prev)) st.

Definition clickReset (st : State) : State := setTransform identityTransform st.

(** ** Effects and the frame loop *)

(** The first effect, run whenever [graphData] or [dimensions] received a
    new value: the model is rebuilt from the raw data, consuming two
    draws per node.  The node objects are new ones: a node tooltip keeps
    the object it holds, which is no longer one of the model. *)
Definition runGraphEffect (st : State) : State :=
  match processGraphData (graphData st) (dimensions st) (random st) with
  | Some pd =>
      let used := (2 * length (ProcessedGraphData.nodes pd))%nat in
      setRandom (fun k => random st (k + used)%nat)
        (setTooltipNodeIndex None (setProcessedData (Some pd) st))
  | None => st
  end.

(** [updateDimensions]: [container] is the bounding rectangle of the
    hosting element, [None] when the ref is empty.  [setDimensions]
    receives a fresh object, so the first effect runs again. *)
Definition updateDimensions (container : option Rect.t) (st : State) : State :=
  match container with
  | Some rect =>
      runGraphEffect
        (setDimensions
           (Dimensions.mk (Rect.width rect) (Rmax 500 (Rect.height rect))) st)
  | None => st
  end.

(** A new [graphData] prop. *)
Definition receiveGraphData (g : option GraphData.t) (st : State) : State :=
  runGraphEffect (setGraphData g st).

(** One animation frame: the simulation effect does nothing without a
    model or with an empty node list. *)
Definition animationFrame (st : State) : State :=
  match processedData st with
  | Some pd =>
      if Nat.eqb (length (ProcessedGraphData.nodes pd)) 0 then st
      else assignNodes (simulateForces (dimensions st) (dragNode st) pd) st
  | None => st
  end.

Inductive Event :=
  | MouseMove (clientX clientY : R)
  | MouseDown (clientX clientY : R) (buttons : nat) (altKey : bool)
  | MouseUp
  | Wheel (clientX clientY deltaY : R)
  | KeyDown (key : string)
  | KeyUp (key : string)
  | ClickZoomIn
  | ClickZoomOut
  | ClickReset
  | Resize (container : option Rect.t)
  | NewGraphData (g : option GraphData.t)
  | Frame.

Definition step (e : Event) (st : State) : State :=
  match e with
  | MouseMove cx cy => handleMouseMove cx cy st
  | MouseDown cx cy b alt => handleMouseDown cx cy b alt st
  | MouseUp => handleMouseUp st
  | Wheel cx cy dy => handleWheel cx cy dy st
  | KeyDown k => handleKeyDown k st
  | KeyUp k => handleKeyUp k st
  | ClickZoomIn => clickZoomIn st
  | ClickZoomOut => clickZoomOut st
  | ClickReset => clickReset st
  | Resize c => updateDimensions c st
  | NewGraphData g => receiveGraphData g st
  | Frame => animationFrame st
  end.

(** [n] consecutive animation frames. *)
Definition frames (n : nat) (st : State) : State := Nat.iter n animationFrame st.

(** The states of the interaction state machine, read off the flags in
    the order in which [handleMouseMove] tests them. *)
Inductive Mode :=
  | Panning
  | DraggingNode (i : nat)
  | Idle.

Definition mode (st : State) : Mode :=
  if isPanning st then Panning
  else
    match isDragging st, dragNode st with
    | true, Some d => DraggingNode d
    | _, _ => Idle
    end.


(** ** Renderer: the [render] callback *)

(** [Math.round]: the nearest integer, halves rounded up. *)
Definition jsRound (v : R) : Z := Int_part (v + 0.5).

(** The text of a [fillText] call: a node label, or the zoom readout
    [Zoom: p%] carried as its number. *)
Inductive CanvasText :=
  | LabelText (label : string)
  | ZoomText (percent : Z).

(** A call that reaches the canvas, with the styles in force when it is
    made.  A stroked line is [beginPath; moveTo; lineTo; stroke], a disc is
    [beginPath; arc(x, y, r, 0, 2 * Math.PI)] filled or stroked; the font
    of a text is given by its size in pixels. *)
Inductive DrawCmd :=
  | ClearRect (x y w h : R)
  | Save
  | Translate (x y : R)
  | Scale (x y : R)
  | StrokeLine (x1 y1 x2 y2 : R) (strokeStyle : string) (lineWidth : R)
  | FillDisc (x y radius : R) (fillStyle : string)
  | StrokeDisc (x y radius : R) (strokeStyle : string) (lineWidth : R)
  | FillRect (x y w h : R) (fillStyle : string)
  | FillText (text : CanvasText) (x y : R) (fillStyle : string) (fontPx : R)
  | Restore.

Definition linkStrokeStyle (type : string) : string :=
  if decide (type = "Friend") then "rgba(50, 205, 50, 0.9)" else "rgba(255, 165, 0, 0.9)".

Definition linkLineWidth (transform : Transform.t) (value : R) : R :=
  Rmax 2 (Rmin value 4) / Transform.scale transform.

Definition linkHaloWidth (transform : Transform.t) (value : R) : R :=
  (Rmax 3 (Rmin value 5) + 2) / Transform.scale transform.

(** [nodeSize], the radius of the drawn disc in graph units. *)
Definition nodeSize (transform : Transform.t) (node : ProcessedNode.t) : R :=
  Rmax 8 (ProcessedNode.size node / 2 + 4) / Transform.scale transform.

(** The body of the link loop; a link with a missing endpoint draws
    nothing. *)
Definition drawLink (transform : Transform.t) (nodes : list ProcessedNode.t)
    (link : ProcessedLink.t) : list DrawCmd :=
  match nodes !! ProcessedLink.source link, nodes !! ProcessedLink.target link with
  | Some source, Some target =>
      [StrokeLine (ProcessedNode.x source) (ProcessedNode.y source)
         (ProcessedNode.x target) (ProcessedNode.y target)
         (linkStrokeStyle (ProcessedLink.type link))
         (linkLineWidth transform (ProcessedLink.value link));
       StrokeLine (ProcessedNode.x source) (ProcessedNode.y source)
         (ProcessedNode.x target) (ProcessedNode.y target)
         "rgba(255, 255, 255, 0.3)"
         (linkHaloWidth transform (ProcessedLink.value link))]
  | _, _ => []
  end.

(** The body of the node loop; [measureText label fontPx] is the width
    the browser reports for the label. *)
Definition drawNode (measureText : string -> R -> R) (transform : Transform.t)
    (node : ProcessedNode.t) : list DrawCmd :=
  let scale := Transform.scale transform in
  let nodeSize := nodeSize transform node in
  let label := ProcessedNode.id node in
  let textWidth := measureText label (12 / scale) in
  [FillDisc (ProcessedNode.x node) (ProcessedNode.y node) nodeSize
     (ProcessedNode.color node);
   StrokeDisc (ProcessedNode.x node) (ProcessedNode.y node) nodeSize
     "#ffffff" (1.5 / scale);
   FillRect (ProcessedNode.x node - textWidth / 2 - 2 / scale)
     (ProcessedNode.y node + nodeSize + 2 / scale)
     (textWidth + 4 / scale) (14 / scale) "rgba(0, 0, 0, 0.7)";
   FillText (LabelText label) (ProcessedNode.x node)
     (ProcessedNode.y node + nodeSize + 8 / scale) "white" (12 / scale)].

(** [render]: [None] when it returns before drawing; a canvas that gives
    no 2d context is outside the model. *)
Definition render (measureText : string -> R -> R) (st : State) : option (list DrawCmd) :=
  match canvas st, processedData st with
  | Some _, Some pd =>
      let width := Dimensions.width (dimensions st) in
      let height := Dimensions.height (dimensions st) in
      let t := transform st in
      Some
        ([ClearRect 0 0 width height;
          Save;
          Translate (Transform.translateX t) (Transform.translateY t);
          Scale (Transform.scale t) (Transform.scale t)]
         ++ concat (map (drawLink t (ProcessedGraphData.nodes pd))
                      (ProcessedGraphData.links pd))
         ++ concat (map (drawNode measureText t) (ProcessedGraphData.nodes pd))
         ++ [Restore;
             FillText (ZoomText (jsRound (Transform.scale t * 100))) 10 (height - 10)
               "rgba(255, 255, 255, 0.7)" 10])
  | _, _ => None
  end.

(** ** BookAnalysis: the colour helpers next to the graph *)

Definition getSentimentColor (sentiment : string) : string :=
  let s := toLowerCase sentiment in
  if decide (s = "positive") then "text-green-500"
  else if decide (s = "negative") then "text-red-500"
  else if decide (s = "mixed") then "text-yellow-500"
  else "text-blue-500".

Definition getRoleBadgeColor (role : string) : string :=
  let r := toLowerCase role in
  if decide (r = "main") then
    "bg-red-100 text-red-800 dark:bg-red-900/30 dark:text-red-200"
  else if decide (r = "supporting") then
    "bg-teal-100 text-teal-800 dark:bg-teal-900/30 dark:text-teal-200"
  else if decide (r = "minor") then
    "bg-yellow-100 text-yellow-800 dark:bg-yellow-900/30 dark:text-yellow-200"
  else "bg-blue-100 text-blue-800 dark:bg-blue-900/30 dark:text-blue-200".

(** ** utils/bookHistory.ts *)

Module BookHistoryItem.
Record t := mk {
  id : string;
  title : string;
  timestamp : R
}.
End BookHistoryItem.

Definition MAX_HISTORY_ITEMS : nat := 20.

(** The value under [HISTORY_KEY] is kept as the list it encodes, [None]
    when the key is absent; a stored text that does not parse is outside
    the model.  [window] is [typeof window !== 'undefined'], [now] the
    value of [Date.now()]. *)
Definition saveBookToHistory (window : bool)
    (stored : option (list BookHistoryItem.t))
    (bookId : string) (bookTitle : option string) (now : R)
    : option (list BookHistoryItem.t) :=
  if negb window then stored
  else
    let historyItems :=
      match stored with
      | Some items => items
      | None => []
      end in
    let historyItems :=
      filter (fun item => BookHistoryItem.id item <> bookId) historyItems in
    let historyItems :=
      BookHistoryItem.mk bookId
        (opt_str_or bookTitle (String.append "Book #" bookId)) now
      :: historyItems in
    let historyItems :=
      if (MAX_HISTORY_ITEMS <? length historyItems)%nat
      then take MAX_HISTORY_ITEMS historyItems
      else historyItems in
    Some historyItems.

Definition getBookHistory (window : bool)
    (stored : option (list BookHistoryItem.t)) : list BookHistoryItem.t :=
  if negb window then []
  else
    match stored with
    | Some items => items
    | None => []
    end.

Definition clearBookHistory (window : bool)
    (stored : option (list BookHistoryItem.t)) : option (list BookHistoryItem.t) :=
  if negb window then stored else None.
(** * Vocabulary of the properties *)

(** ** Links and their endpoints *)

(** Both endpoint ids of a raw link occur among the node ids. *)
Definition endpointsPresent (ids : list string) (link : GraphLink.t) : Prop :=
  GraphLink.source link ∈ ids /\ GraphLink.target link ∈ ids.

#[global] Instance endpointsPresent_dec (ids : list string) (link : GraphLink.t) :
  Decision (endpointsPresent ids link).
Proof. unfold endpointsPresent. apply _. Defined.

(** A processed link points at nodes carrying the ids of the raw link and
    has the defaulted weight and type. *)
Definition resolves (nodes : list ProcessedNode.t) (raw : GraphLink.t)
    (pl : ProcessedLink.t) : Prop :=
  (exists s, nodes !! ProcessedLink.source pl = Some s
             /\ ProcessedNode.id s = GraphLink.source raw)
  /\ (exists t, nodes !! ProcessedLink.target pl = Some t
                /\ ProcessedNode.id t = GraphLink.target raw)
  /\ ProcessedLink.value pl = opt_num_or (GraphLink.value raw) 2
  /\ ProcessedLink.type pl = opt_str_or (GraphLink.type raw) "relationship".

Definition indicesInRange (nodes : list ProcessedNode.t) (pl : ProcessedLink.t) : Prop :=
  (ProcessedLink.source pl < length nodes)%nat
  /\ (ProcessedLink.target pl < length nodes)%nat.

(** ** Nodes of the current model *)

Definition position (node : ProcessedNode.t) : R * R :=
  (ProcessedNode.x node, ProcessedNode.y node).

Definition velocity (node : ProcessedNode.t) : R * R :=
  (ProcessedNode.vx node, ProcessedNode.vy node).

(** Position and velocity of node [i] of the current model. *)
Definition nodePosition (st : State) (i : nat) : option (R * R) :=
  pd ← processedData st; position <$> ProcessedGraphData.nodes pd !! i.

Definition nodeVelocity (st : State) (i : nat) : option (R * R) :=
  pd ← processedData st; velocity <$> ProcessedGraphData.nodes pd !! i.

(** The rectangle [20, width - 20] x [20, height - 20]. *)
Definition inBox (d : Dimensions.t) (p : R * R) : Prop :=
  (20 <= p.1 <= Dimensions.width d - 20)
  /\ (20 <= p.2 <= Dimensions.height d - 20).

(** ** Forces *)

(** Centering plus the repulsion from every other node, accumulated in
    index order as the first loop of [simulateForces] does for node [i]. *)
Definition forceSum (width height : R) (nodes : list ProcessedNode.t)
    (i : nat) (node : ProcessedNode.t) : R * R :=
  foldl (fun acc j =>
           if Nat.eqb i j then acc
           else
             match nodes !! j with
             | Some otherNode =>
                 (acc.1 + (repulsionForce node otherNode).1,
                  acc.2 + (repulsionForce node otherNode).2)
             | None => acc
             end)
        (centeringForce width height node) (seq 0 (length nodes)).

(** The repulsion term in the words of the specification, not of the
    code: unit(position difference) x (1000 / max(distance, 1)^2). *)
Definition spec_repulsionForce (node otherNode : ProcessedNode.t) : R * R :=
  let dx := ProcessedNode.x node - ProcessedNode.x otherNode in
  let dy := ProcessedNode.y node - ProcessedNode.y otherNode in
  let distance := sqrt (dx * dx + dy * dy) in
  let magnitude := 1000 / (Rmax distance 1 * Rmax distance 1) in
  ((dx / distance) * magnitude, (dy / distance) * magnitude).

(** ** Camera *)

(** Neither early return of [handleWheel] is taken for factor [delta]. *)
Definition zoomAccepted (delta : R) (transform : Transform.t) : Prop :=
  0.1 <= Transform.scale transform * delta <= 10.

(** ** Events *)

(** The events on which the handlers call [setIsPanning(true)]. *)
Definition panTrigger (st : State) (e : Event) : Prop :=
  match e with
  | MouseDown _ _ buttons altKey =>
      is_Some (canvas st) /\ is_Some (processedData st)
      /\ (buttons = 4%nat \/ (buttons = 1%nat /\ altKey = true))
  | KeyDown key => key = "Alt"
  | _ => False
  end.


(** ** Sample graphs and states *)

(** A component without data and without canvas. *)
Definition idleState : State := initialState None None (fun _ => 0).

(** The component mounted on a graph, its canvas at the origin: the first
    effect has run once, at the initial 800 x 600. *)
Definition mounted (g : option GraphData.t) (rnd : nat -> R) : State :=
  runGraphEffect (initialState g (Some (Rect.mk 0 0 800 600)) rnd).

Definition oneNodeGraph : option GraphData.t :=
  Some (GraphData.mk (Some [GraphNode.mk "A" 10 "main" None]) (Some [])).

(** Two friends, as in the scenario of the specification. *)
Definition twoNodeGraph : option GraphData.t :=
  Some (GraphData.mk
          (Some [GraphNode.mk "A" 10 "main" None; GraphNode.mk "B" 10 "minor" None])
          (Some [GraphLink.mk "A" "B" (Some 5) (Some "Friend")])).

(** Draws that put the first node of a graph 50 to the left and the
    second 50 to the right of the centre. *)
Definition drawsLeftRight (k : nat) : R :=
  match k with
  | 0%nat => 0.25
  | 2%nat => 0.75
  | _ => 0.5
  end.

(** Draws of one half twice, then of three quarters. *)
Definition drawsHalfThenThreeQuarters (k : nat) : R :=
  if (k <? 2)%nat then 0.5 else 0.75.

(** An idle component showing the two friends at (350, 300), (450, 300). *)
Definition hoverState : State := mounted twoNodeGraph drawsLeftRight.

(** Node 0 of a one-node model while it is dragged. *)
Definition draggingState : State :=
  setDragNode (Some 0%nat) (setIsDragging true (mounted oneNodeGraph (fun _ => 0.5))).


(** A bare node at a position, at rest. *)
Definition nodeAt (id : string) (px py : R) : ProcessedNode.t :=
  ProcessedNode.mk id 10 "main" None "#ff6b6b" px py 0 0.


(** ** Runs of events *)

(** The component after a sequence of events, the first one first. *)
Definition run (es : list Event) (st : State) : State :=
  foldl (fun s e => step e s) st es.

(** The scale is within the limits of the zoom. *)
Definition scaleInRange (st : State) : Prop :=
  0.1 <= Transform.scale (transform st) <= 10.

(** A component on which the Alt key was pressed: panning, with the last
    pointer position at the canvas centre. *)
Definition panningState : State :=
  step (KeyDown "Alt") (mounted oneNodeGraph (fun _ => 0.5)).

(** ** Invariants of the component *)

(** [isDragging] is set exactly when a node is pinned. *)
Definition dragFlagsAgree (st : State) : Prop :=
  isDragging st = true <-> is_Some (dragNode st).

(** Every link of the current model points at two of its nodes. *)
Definition linksInRange (st : State) : Prop :=
  match processedData st with
  | Some pd =>
      Forall (indicesInRange (ProcessedGraphData.nodes pd)) (ProcessedGraphData.links pd)
  | None => True
  end.

(** What the simulation never writes: everything but position and
    velocity. *)
Definition staticPart (node : ProcessedNode.t)
    : string * R * string * option string * string :=
  (ProcessedNode.id node, ProcessedNode.size node, ProcessedNode.role node,
   ProcessedNode.description node, ProcessedNode.color node).

(** Everything of the component state but the model and the node
    tooltip. *)
Definition besidesModel (st : State) : State :=
  setTooltipNode None (setProcessedData None st).

(** What the simulation never writes of a node tooltip: the static part
    of its node and its screen point. *)
Definition tooltipStatic (tip : NodeTooltip.t)
    : string * R * string * option string * string * R * R :=
  (staticPart (NodeTooltip.node tip), NodeTooltip.x tip, NodeTooltip.y tip).

(** The node tooltip shows the node of the model at [tooltipNodeIndex],
    with the values which that node has now. *)
Definition tooltipLive (st : State) : Prop :=
  forall i, tooltipNodeIndex st = Some i ->
    exists pd tip,
      processedData st = Some pd
      /\ tooltipNode st = Some tip
      /\ ProcessedGraphData.nodes pd !! i = Some (NodeTooltip.node tip).

(** The press is one of those that start panning. *)
Definition panButtons (buttons : nat) (altKey : bool) : Prop :=
  buttons = 4%nat \/ (buttons = 1%nat /\ altKey = true).

(** ** Sums over the nodes *)

Definition sumR (l : list R) : R := foldr Rplus 0 l.

(** The sum of the node velocities, component by component. *)
Definition totalVelocity (nodes : list ProcessedNode.t) : R * R :=
  (sumR (ProcessedNode.vx <$> nodes), sumR (ProcessedNode.vy <$> nodes)).

(** The distance between two nodes, before [|| 1]. *)
Definition nodeDistance (a b : ProcessedNode.t) : R :=
  sqrt ((ProcessedNode.x b - ProcessedNode.x a) * (ProcessedNode.x b - ProcessedNode.x a)
        + (ProcessedNode.y b - ProcessedNode.y a) * (ProcessedNode.y b - ProcessedNode.y a)).

(** ** Raw data *)

(** The guard of the first effect fires: no data, no node list or no
    link list. *)
Definition graphIncomplete (g : option GraphData.t) : Prop :=
  match g with
  | None => True
  | Some data => GraphData.nodes data = None \/ GraphData.links data = None
  end.

(** ** Hovering *)

(** At most one of the two tooltips is shown. *)
Definition oneTooltip (st : State) : Prop :=
  tooltipNode st = None \/ tooltipLink st = None.

(** The link has both endpoints in the node array, and the point is nearer
    to the segment between them than the detection radius, 5 / scale. *)
Definition linkNear (transform : Transform.t) (nodes : list ProcessedNode.t)
    (gx gy : R) (link : ProcessedLink.t) : Prop :=
  exists source target,
    nodes !! ProcessedLink.source link = Some source
    /\ nodes !! ProcessedLink.target link = Some target
    /\ segmentDistance gx gy source target < 5 / Transform.scale transform.

(** The tooltip of a link between [source] and [target]: their ids, the
    type of the link and the screen point of the midpoint. *)
Definition linkTooltipOf (transform : Transform.t) (link : ProcessedLink.t)
    (source target : ProcessedNode.t) : LinkTooltip.t :=
  LinkTooltip.mk (ProcessedNode.id source) (ProcessedNode.id target)
    (ProcessedLink.type link)
    ((ProcessedNode.x source + ProcessedNode.x target) / 2
     * Transform.scale transform + Transform.translateX transform)
    ((ProcessedNode.y source + ProcessedNode.y target) / 2
     * Transform.scale transform + Transform.translateY transform).

(** The square of the distance from a point to the point at parameter
    [t] of the segment from [source] to [target]. *)
Definition squaredDistanceAt (gx gy : R) (source target : ProcessedNode.t) (t : R) : R :=
  (gx - (ProcessedNode.x source + t * (ProcessedNode.x target - ProcessedNode.x source)))
  * (gx - (ProcessedNode.x source + t * (ProcessedNode.x target - ProcessedNode.x source)))
  + (gy - (ProcessedNode.y source + t * (ProcessedNode.y target - ProcessedNode.y source)))
    * (gy - (ProcessedNode.y source + t * (ProcessedNode.y target - ProcessedNode.y source))).

(** ** Drawing *)



(** ** The spring loop, node by node *)

(** What the body of the spring loop, run for [link] on a store with the
    positions of [nodes], adds to the velocity of node [i]. *)
Definition springTerm (dragNode : option nat) (nodes : list ProcessedNode.t)
    (link : ProcessedLink.t) (i : nat) : R * R :=
  let s := ProcessedLink.source link in
  let t := ProcessedLink.target link in
  if ((length nodes <=? s)%nat || (length nodes <=? t)%nat)%bool then (0, 0)
  else
    match nodes !! s, nodes !! t with
    | Some source, Some target =>
        let f := springForce source target (ProcessedLink.value link) in
        let onSource := (Nat.eqb i s && negb (isDragNode dragNode s))%bool in
        let onTarget := (Nat.eqb i t && negb (isDragNode dragNode t))%bool in
        ((if onSource then f.1 else 0) + (if onTarget then - f.1 else 0),
         (if onSource then f.2 else 0) + (if onTarget then - f.2 else 0))
    | _, _ => (0, 0)
    end.

(** The sum of the spring terms of all links for node [i]. *)
Definition springSum (dragNode : option nat) (nodes : list ProcessedNode.t)
    (links : list ProcessedLink.t) (i : nat) : R * R :=
  foldr (fun link acc =>
           ((springTerm dragNode nodes link i).1 + acc.1,
            (springTerm dragNode nodes link i).2 + acc.2))
        (0, 0) links.


(** * The state record *)

(** Assignments to the node objects write the model and what the node
    tooltip shows of it, and nothing else. *)
Lemma assignNodes_processedData (pd : ProcessedGraphData.t) (st : State) :
  processedData (assignNodes pd st) = Some pd.
Proof. reflexivity. Qed.

Lemma assignNodes_blank (pd : ProcessedGraphData.t) (st : State) :
  setTooltipNode None (setProcessedData None (assignNodes pd st))
  = setTooltipNode None (setProcessedData None st).
Proof. reflexivity. Qed.

Lemma blank_fields (st st' : State) :
  setTooltipNode None (setProcessedData None st')
  = setTooltipNode None (setProcessedData None st) ->
  graphData st' = graphData st
  /\ dimensions st' = dimensions st
  /\ tooltipLink st' = tooltipLink st
  /\ isDragging st' = isDragging st
  /\ dragNode st' = dragNode st
  /\ transform st' = transform st
  /\ isPanning st' = isPanning st
  /\ lastMousePos st' = lastMousePos st
  /\ canvas st' = canvas st
  /\ random st' = random st
  /\ tooltipNodeIndex st' = tooltipNodeIndex st.
Proof.
  unfold setTooltipNode, setProcessedData. simpl. intros H.
  injection H as -> -> -> -> -> -> -> -> -> -> ->. repeat split.
Qed.

Lemma assignNodes_fields (pd : ProcessedGraphData.t) (st : State) :
  graphData (assignNodes pd st) = graphData st
  /\ dimensions (assignNodes pd st) = dimensions st
  /\ tooltipLink (assignNodes pd st) = tooltipLink st
  /\ isDragging (assignNodes pd st) = isDragging st
  /\ dragNode (assignNodes pd st) = dragNode st
  /\ transform (assignNodes pd st) = transform st
  /\ isPanning (assignNodes pd st) = isPanning st
  /\ lastMousePos (assignNodes pd st) = lastMousePos st
  /\ canvas (assignNodes pd st) = canvas st
  /\ random (assignNodes pd st) = random st
  /\ tooltipNodeIndex (assignNodes pd st) = tooltipNodeIndex st.
Proof. apply blank_fields, assignNodes_blank. Qed.

Lemma assignNodes_dimensions (pd : ProcessedGraphData.t) (st : State) :
  dimensions (assignNodes pd st) = dimensions st.
Proof. apply assignNodes_fields. Qed.

Lemma assignNodes_dragNode (pd : ProcessedGraphData.t) (st : State) :
  dragNode (assignNodes pd st) = dragNode st.
Proof. apply assignNodes_fields. Qed.


Lemma assignNodes_isPanning (pd : ProcessedGraphData.t) (st : State) :
  isPanning (assignNodes pd st) = isPanning st.
Proof. apply assignNodes_fields. Qed.

(** The node tooltip is present after the assignments if and only if it
    was present before. *)
Lemma assignNodes_tooltipNode_None (pd : ProcessedGraphData.t) (st : State) :
  tooltipNode (assignNodes pd st) = None <-> tooltipNode st = None.
Proof.
  unfold assignNodes, refreshTooltipNode, liveTooltipNode. simpl.
  destruct (tooltipNodeIndex st), (tooltipNode st) eqn:Htip; try tauto.
  destruct (ProcessedGraphData.nodes pd !! n); [| tauto].
  split; discriminate.
Qed.
(** * Properties *)

(** ** GraphModel: resolution of links *)

Lemma setNodeIndices_None (nodes : list ProcessedNode.t) (k : nat)
    (m : gmap string nat) (s : string) :
  setNodeIndices nodes k m !! s = None
  <-> m !! s = None /\ s ∉ (ProcessedNode.id <$> nodes).
Proof.
  revert k m. induction nodes as [|node rest IH]; intros k m; simpl.
  - split; [intros H; split; [exact H | apply not_elem_of_nil] | tauto].
  - rewrite IH, not_elem_of_cons.
    destruct (decide (ProcessedNode.id node = s)) as [->|Hne].
    + rewrite lookup_insert_eq. split; [intros [? _]; discriminate | tauto].
    + rewrite lookup_insert_ne by exact Hne. split; [intros [? ?] | tauto].
      repeat split; auto.
Qed.

Lemma setNodeIndices_Some (nodes : list ProcessedNode.t) (k : nat)
    (m : gmap string nat) (s : string) (i : nat) :
  setNodeIndices nodes k m !! s = Some i ->
  m !! s = Some i
  \/ exists j node, i = (k + j)%nat /\ nodes !! j = Some node /\ ProcessedNode.id node = s.
Proof.
  revert k m. induction nodes as [|node rest IH]; intros k m; simpl.
  - auto.
  - intros H. destruct (IH _ _ H) as [Hm | (j & n & -> & Hj & Hid)].
    + destruct (decide (ProcessedNode.id node = s)) as [Heq|Hne].
      * rewrite <- Heq, lookup_insert_eq in Hm. inversion Hm; subst.
        right. exists 0%nat, node. repeat split; auto with lia.
      * rewrite lookup_insert_ne in Hm by exact Hne. auto.
    + right. exists (S j), n. repeat split; auto with lia.
Qed.

Lemma buildNodes_ids (d : Dimensions.t) (rnd : nat -> R) (rawNodes : list GraphNode.t) :
  ProcessedNode.id <$> buildNodes d rnd rawNodes = GraphNode.id <$> rawNodes.
Proof.
  unfold buildNodes. rewrite fmap_imap. unfold compose. simpl.
  apply imap_const.
Qed.

Lemma filterNotNull_app {A : Type} (l1 l2 : list (option A)) :
  filterNotNull (l1 ++ l2) = filterNotNull l1 ++ filterNotNull l2.
Proof.
  induction l1 as [|[a|] l1 IH]; simpl; [reflexivity | f_equal; exact IH | exact IH].
Qed.

Lemma resolveLink_None (nodes : list ProcessedNode.t) (link : GraphLink.t) :
  resolveLink (setNodeIndices nodes 0 ∅) link = None
  <-> ~ endpointsPresent (ProcessedNode.id <$> nodes) link.
Proof.
  unfold resolveLink, endpointsPresent.
  destruct (setNodeIndices nodes 0 ∅ !! GraphLink.source link) as [s|] eqn:Hs.
  - destruct (setNodeIndices nodes 0 ∅ !! GraphLink.target link) as [t|] eqn:Ht.
    + split; [discriminate |]. intros H. exfalso. apply H. split.
      * destruct (decide (GraphLink.source link ∈ ProcessedNode.id <$> nodes)); [done |].
        assert (setNodeIndices nodes 0 ∅ !! GraphLink.source link = None) as E
          by (apply setNodeIndices_None; split; [apply lookup_empty | done]).
        congruence.
      * destruct (decide (GraphLink.target link ∈ ProcessedNode.id <$> nodes)); [done |].
        assert (setNodeIndices nodes 0 ∅ !! GraphLink.target link = None) as E
          by (apply setNodeIndices_None; split; [apply lookup_empty | done]).
        congruence.
    + apply setNodeIndices_None in Ht. split; [intros _ | reflexivity]. tauto.
  - apply setNodeIndices_None in Hs. split; [intros _ | reflexivity]. tauto.
Qed.

Lemma resolveLink_Some (nodes : list ProcessedNode.t) (link : GraphLink.t)
    (pl : ProcessedLink.t) :
  resolveLink (setNodeIndices nodes 0 ∅) link = Some pl -> resolves nodes link pl.
Proof.
  unfold resolveLink, resolves.
  destruct (setNodeIndices nodes 0 ∅ !! GraphLink.source link) as [s|] eqn:Hs; [| discriminate].
  destruct (setNodeIndices nodes 0 ∅ !! GraphLink.target link) as [t|] eqn:Ht; [| discriminate].
  intros [= <-]. simpl.
  apply setNodeIndices_Some in Hs as [Hs | (j & n & -> & Hj & Hid)];
    [rewrite lookup_empty in Hs; discriminate |].
  apply setNodeIndices_Some in Ht as [Ht | (j' & n' & -> & Hj' & Hid')];
    [rewrite lookup_empty in Ht; discriminate |].
  simpl. repeat split; eauto.
Qed.

Lemma resolves_inRange (nodes : list ProcessedNode.t) (raw : GraphLink.t)
    (pl : ProcessedLink.t) :
  resolves nodes raw pl -> indicesInRange nodes pl.
Proof.
  intros ((s & Hs & _) & (t & Ht & _) & _).
  split; eapply lookup_lt_Some; eassumption.
Qed.

Lemma buildLinks_resolved (nodes : list ProcessedNode.t) (rawLinks : list GraphLink.t) :
  Forall2 (resolves nodes)
    (filter (endpointsPresent (ProcessedNode.id <$> nodes)) rawLinks)
    (buildLinks nodes rawLinks).
Proof.
  unfold buildLinks. induction rawLinks as [|link rest IH]; simpl.
  - constructor.
  - destruct (resolveLink (setNodeIndices nodes 0 ∅) link) as [pl|] eqn:Hr.
    + rewrite filter_cons_True.
      * constructor; [apply resolveLink_Some; exact Hr | exact IH].
      * destruct (decide (endpointsPresent (ProcessedNode.id <$> nodes) link)); [done |].
        apply resolveLink_None in n. congruence.
    + rewrite filter_cons_False; [exact IH |].
      apply resolveLink_None. exact Hr.
Qed.

Lemma buildLinks_app (nodes : list ProcessedNode.t) (l1 l2 : list GraphLink.t) :
  buildLinks nodes (l1 ++ l2) = buildLinks nodes l1 ++ buildLinks nodes l2.
Proof. unfold buildLinks. rewrite map_app. apply filterNotNull_app. Qed.

Lemma buildLinks_single (nodes : list ProcessedNode.t) (link : GraphLink.t) :
  (~ endpointsPresent (ProcessedNode.id <$> nodes) link -> buildLinks nodes [link] = [])
  /\ (endpointsPresent (ProcessedNode.id <$> nodes) link ->
      exists pl, buildLinks nodes [link] = [pl] /\ resolves nodes link pl).
Proof.
  unfold buildLinks. simpl.
  destruct (resolveLink (setNodeIndices nodes 0 ∅) link) as [pl|] eqn:Hr.
  - split.
    + intros Hno. apply resolveLink_None in Hno. congruence.
    + intros _. exists pl. split; [reflexivity | apply resolveLink_Some; exact Hr].
  - apply resolveLink_None in Hr. split; [reflexivity | contradiction].
Qed.

(** C1: for raw data with a node list and a link list, a model is built;
    its node list is the placed raw node list, whatever the links are; its
    links are, in order, exactly the raw links whose two endpoint ids occur
    among the node ids, each resolved to in-range indices of nodes carrying
    those ids; and what a link contributes, nothing if an endpoint is
    absent and its resolution otherwise, does not depend on the links
    before and after it. *)
Theorem built_model_links (d : Dimensions.t) (rnd : nat -> R)
    (rawNodes : list GraphNode.t) (rawLinks : list GraphLink.t) :
  let ids := GraphNode.id <$> rawNodes in
  exists pd,
    processGraphData (Some (GraphData.mk (Some rawNodes) (Some rawLinks))) d rnd = Some pd
    /\ ProcessedGraphData.nodes pd = buildNodes d rnd rawNodes
    /\ length (ProcessedGraphData.nodes pd) = length rawNodes
    /\ ProcessedNode.id <$> ProcessedGraphData.nodes pd = ids
    /\ Forall2 (resolves (ProcessedGraphData.nodes pd))
         (filter (endpointsPresent ids) rawLinks) (ProcessedGraphData.links pd)
    /\ Forall (indicesInRange (ProcessedGraphData.nodes pd)) (ProcessedGraphData.links pd)
    /\ (forall l1 link l2, rawLinks = l1 ++ link :: l2 ->
          ProcessedGraphData.links pd
          = buildLinks (ProcessedGraphData.nodes pd) l1
            ++ buildLinks (ProcessedGraphData.nodes pd) [link]
            ++ buildLinks (ProcessedGraphData.nodes pd) l2
          /\ (~ endpointsPresent ids link ->
              buildLinks (ProcessedGraphData.nodes pd) [link] = [])
          /\ (endpointsPresent ids link ->
              exists pl, buildLinks (ProcessedGraphData.nodes pd) [link] = [pl]
                         /\ resolves (ProcessedGraphData.nodes pd) link pl)).
Proof.
  intros ids. eexists. split; [reflexivity |]. simpl.
  pose proof (buildNodes_ids d rnd rawNodes) as Hids.
  pose proof (buildLinks_resolved (buildNodes d rnd rawNodes) rawLinks) as Hres.
  rewrite Hids in Hres.
  split; [reflexivity |].
  split; [unfold buildNodes; apply length_imap |].
  split; [exact Hids |].
  split; [exact Hres |].
  split.
  - clear -Hres. induction Hres as [|raw pl ? ? H ? IH]; constructor;
      [eapply resolves_inRange; exact H | exact IH].
  - intros l1 link l2 ->. split.
    + change (link :: l2) with ([link] ++ l2). rewrite !buildLinks_app. reflexivity.
    + unfold ids. rewrite <- Hids. apply buildLinks_single.
Qed.

(** The two scenarios of the specification: a link between two present
    nodes is resolved to the indices 0 and 1; a link to an unknown node
    is dropped and the node list is as it was. *)
Example scenario_two_nodes_one_link :
  let nodes := buildNodes (Dimensions.mk 800 600) (fun _ => 0.5)
                 [GraphNode.mk "A" 10 "main" None; GraphNode.mk "B" 10 "minor" None] in
  length nodes = 2%nat
  /\ (fun l => (ProcessedLink.source l, ProcessedLink.target l, ProcessedLink.type l))
       <$> buildLinks nodes [GraphLink.mk "A" "B" (Some 5) (Some "Friend")]
     = [(0%nat, 1%nat, "Friend")].
Proof. split; reflexivity. Qed.

Example scenario_unknown_target :
  let nodes := buildNodes (Dimensions.mk 800 600) (fun _ => 0.5)
                 [GraphNode.mk "A" 10 "main" None] in
  ProcessedNode.id <$> nodes = ["A"]
  /\ buildLinks nodes [GraphLink.mk "A" "Z" (Some 1) (Some "Enemy")] = [].
Proof. split; reflexivity. Qed.

(** ** Loops over the node array *)

Lemma foldl_preserves {A B : Type} (P : A -> Prop) (f : A -> B -> A) (l : list B) (a : A) :
  (forall a' b, P a' -> P (f a' b)) -> P a -> P (foldl f a l).
Proof.
  intros Hf. revert a. induction l as [|b l IH]; intros a Ha; simpl; [exact Ha |].
  apply IH, Hf, Ha.
Qed.

Lemma for_range_preserves {S : Type} (P : S -> Prop) (n : nat)
    (body : nat -> S -> S) (s : S) :
  (forall i s', P s' -> P (body i s')) -> P s -> P (for_range n body s).
Proof. intros Hb. unfold for_range. apply foldl_preserves. intros; apply Hb; assumption. Qed.

Lemma for_of_preserves {A S : Type} (P : S -> Prop) (l : list A)
    (body : A -> S -> S) (s : S) :
  (forall a s', P s' -> P (body a s')) -> P s -> P (for_of l body s).
Proof. intros Hb. unfold for_of. apply foldl_preserves. intros; apply Hb; assumption. Qed.

(** A loop whose body at [i] rewrites element [i] alone, by a function
    that is the same in every store the loop goes through, is an indexed
    map. *)
Lemma for_range_alter {A : Type} (I : list A -> Prop)
    (body : nat -> list A -> list A) (g : nat -> A -> A) (l : list A) :
  (forall acc i, I acc -> (i < length l)%nat -> body i acc = alter (g i) i acc) ->
  (forall acc i, I acc -> I (alter (g i) i acc)) ->
  I l ->
  for_range (length l) body l = imap g l.
Proof.
  intros Hbody Hinv Hl.
  pose (L := fun k => imap (fun i a => if (i <? k)%nat then g i a else a) l).
  assert (forall k, (k <= length l)%nat ->
            foldl (fun acc i => body i acc) l (seq 0 k) = L k /\ I (L k)) as Hk.
  { induction k as [|k IH]; intros Hle.
    - assert (L 0%nat = l) as ->; [| split; [reflexivity | exact Hl]].
      apply list_eq. intros j. unfold L. rewrite list_lookup_imap.
      destruct (l !! j); reflexivity.
    - destruct IH as [IHf IHi]; [lia |].
      assert (alter (g k) k (L k) = L (S k)) as Hstep.
      { apply list_eq. intros j. unfold L.
        destruct (decide (k = j)) as [<-|Hne].
        - rewrite list_lookup_alter_eq, !list_lookup_imap.
          destruct (l !! k); simpl; [| reflexivity].
          rewrite (proj2 (Nat.ltb_ge k k)) by lia.
          rewrite (proj2 (Nat.ltb_lt k (S k))) by lia. reflexivity.
        - rewrite list_lookup_alter_ne by exact Hne. rewrite !list_lookup_imap.
          destruct (l !! j); simpl; [| reflexivity].
          destruct (Nat.ltb_spec j k), (Nat.ltb_spec j (S k)); try reflexivity; lia. }
      rewrite seq_S, foldl_app. simpl. rewrite IHf, Hbody by (exact IHi || lia).
      rewrite <- Hstep. split; [reflexivity | apply Hinv, IHi]. }
  unfold for_range. rewrite (proj1 (Hk (length l) (le_n _))).
  apply list_eq. intros j. unfold L. rewrite !list_lookup_imap.
  destruct (l !! j) eqn:Hj; simpl; [| reflexivity].
  apply lookup_lt_Some in Hj.
  rewrite (proj2 (Nat.ltb_lt j (length l))) by exact Hj. reflexivity.
Qed.

Lemma alter_insert_lookup {A : Type} (f : A -> A) (l : list A) (i : nat) (a : A) :
  l !! i = Some a -> alter f i l = <[i := f a]> l.
Proof.
  intros Hi. apply list_eq. intros j.
  destruct (decide (i = j)) as [<-|Hne].
  - rewrite list_lookup_alter_eq, Hi, list_lookup_insert_eq
      by (eapply lookup_lt_Some; exact Hi). reflexivity.
  - rewrite list_lookup_alter_ne, list_lookup_insert_ne by exact Hne. reflexivity.
Qed.

Lemma foldl_pointwise {A B : Type} (f g : A -> B -> A) (l : list B) (a : A) :
  (forall a' b, b ∈ l -> f a' b = g a' b) -> foldl f a l = foldl g a l.
Proof.
  revert a. induction l as [|b l IH]; intros a Hfg; simpl; [reflexivity |].
  rewrite Hfg by apply list_elem_of_here.
  apply IH. intros a' b' Hb'. apply Hfg. apply list_elem_of_further, Hb'.
Qed.

(** *** Lengths *)

Lemma length_repulsionStep (i j : nat) (nodes : list ProcessedNode.t) :
  length (repulsionStep i j nodes) = length nodes.
Proof.
  unfold repulsionStep. destruct (Nat.eqb i j); [reflexivity |].
  destruct (nodes !! j); [apply length_alter | reflexivity].
Qed.

Lemma length_forceStep (w h : R) (drag : option nat) (i : nat)
    (nodes : list ProcessedNode.t) :
  length (forceStep w h drag i nodes) = length nodes.
Proof.
  unfold forceStep. destruct (isDragNode drag i); [reflexivity |].
  apply (for_range_preserves (fun l => length l = length nodes)).
  - intros j l Hl. rewrite length_repulsionStep. exact Hl.
  - apply length_alter.
Qed.

Lemma length_linkStep (drag : option nat) (link : ProcessedLink.t)
    (nodes : list ProcessedNode.t) :
  length (linkStep drag link nodes) = length nodes.
Proof.
  unfold linkStep. destruct (_ || _)%bool; [reflexivity |].
  destruct (nodes !! _); [| reflexivity]. destruct (nodes !! _); [| reflexivity].
  destruct (isDragNode drag _), (isDragNode drag _);
    rewrite ?length_alter; reflexivity.
Qed.

Lemma length_moveStep (w h : R) (drag : option nat) (i : nat)
    (nodes : list ProcessedNode.t) :
  length (moveStep w h drag i nodes) = length nodes.
Proof.
  unfold moveStep. destruct (isDragNode drag i); [reflexivity | apply length_alter].
Qed.

Lemma length_simulateNodes (d : Dimensions.t) (drag : option nat)
    (links : list ProcessedLink.t) (nodes : list ProcessedNode.t) :
  length (simulateNodes d drag links nodes) = length nodes.
Proof.
  unfold simulateNodes.
  apply (for_range_preserves (fun l => length l = length nodes));
    [intros; rewrite length_moveStep; assumption |].
  apply (for_of_preserves (fun l => length l = length nodes));
    [intros; rewrite length_linkStep; assumption |].
  apply (for_range_preserves (fun l => length l = length nodes));
    [intros; rewrite length_forceStep; assumption | reflexivity].
Qed.

(** *** The pinned node is read, never written *)







(** *** The last loop integrates and clamps every other node *)

Lemma moveLoop_imap (w h : R) (drag : option nat) (nodes : list ProcessedNode.t) :
  for_range (length nodes) (moveStep w h drag) nodes
  = imap (fun i node => if isDragNode drag i then node else integrate w h node) nodes.
Proof.
  apply (for_range_alter (fun _ => True)); [| trivial | trivial].
  intros acc i _ _. unfold moveStep.
  destruct (isDragNode drag i); [| reflexivity].
  symmetry. apply list_alter_id. reflexivity.
Qed.

Lemma lookup_simulateNodes_unpinned (dims : Dimensions.t) (drag : option nat)
    (links : list ProcessedLink.t) (nodes : list ProcessedNode.t)
    (i : nat) (node : ProcessedNode.t) :
  isDragNode drag i = false ->
  simulateNodes dims drag links nodes !! i = Some node ->
  exists before,
    node = integrate (Dimensions.width dims) (Dimensions.height dims) before.
Proof.
  intros Hfree. unfold simulateNodes.
  set (nodes2 := for_of links _ _).
  assert (length nodes2 = length nodes) as Hlen.
  { unfold nodes2.
    apply (for_of_preserves (fun l => length l = length nodes));
      [intros; rewrite length_linkStep; assumption |].
    apply (for_range_preserves (fun l => length l = length nodes));
      [intros; rewrite length_forceStep; assumption | reflexivity]. }
  rewrite <- Hlen, moveLoop_imap, list_lookup_imap, Hfree.
  destruct (nodes2 !! i) as [before|]; simpl; [| discriminate].
  intros [= <-]. exists before. reflexivity.
Qed.

(** ** Animation frames *)

Lemma frames_S (n : nat) (st : State) :
  frames (S n) st = animationFrame (frames n st).
Proof. reflexivity. Qed.

Lemma animationFrame_dimensions (st : State) :
  dimensions (animationFrame st) = dimensions st.
Proof.
  unfold animationFrame. destruct (processedData st); [| reflexivity].
  destruct (Nat.eqb _ _); [reflexivity | apply assignNodes_dimensions].
Qed.

Lemma animationFrame_dragNode (st : State) :
  dragNode (animationFrame st) = dragNode st.
Proof.
  unfold animationFrame. destruct (processedData st); [| reflexivity].
  destruct (Nat.eqb _ _); [reflexivity | apply assignNodes_dragNode].
Qed.

Lemma frames_dimensions (n : nat) (st : State) :
  dimensions (frames n st) = dimensions st.
Proof.
  induction n as [|n IH]; [reflexivity |].
  rewrite frames_S, animationFrame_dimensions. exact IH.
Qed.

Lemma frames_dragNode (n : nat) (st : State) :
  dragNode (frames n st) = dragNode st.
Proof.
  induction n as [|n IH]; [reflexivity |].
  rewrite frames_S, animationFrame_dragNode. exact IH.
Qed.



Lemma animationFrame_unpinned (st : State) (pd : ProcessedGraphData.t)
    (i : nat) (node : ProcessedNode.t) :
  processedData (animationFrame st) = Some pd ->
  ProcessedGraphData.nodes pd !! i = Some node ->
  isDragNode (dragNode st) i = false ->
  exists before,
    node = integrate (Dimensions.width (dimensions st))
                     (Dimensions.height (dimensions st)) before.
Proof.
  unfold animationFrame.
  destruct (processedData st) as [pd0|] eqn:Hpd0;
    [| rewrite Hpd0; discriminate].
  destruct (Nat.eqb_spec (length (ProcessedGraphData.nodes pd0)) 0) as [Hz|Hnz].
  - intros Heq Hi _. assert (pd = pd0) as -> by congruence.
    apply lookup_lt_Some in Hi. lia.
  - rewrite assignNodes_processedData. intros [= <-]. simpl. intros Hi Hfree.
    eapply lookup_simulateNodes_unpinned; eassumption.
Qed.

(** The clamp of [integrate]: the lower bound always holds, the upper
    one up to the lower one. *)
Lemma integrate_clamped (w h : R) (before : ProcessedNode.t) :
  20 <= ProcessedNode.x (integrate w h before) <= Rmax 20 (w - 20)
  /\ 20 <= ProcessedNode.y (integrate w h before) <= Rmax 20 (h - 20).
Proof.
  unfold integrate. simpl.
  repeat split;
    try apply Rmax_l;
    (apply Rmax_lub; [apply Rmax_l | eapply Rle_trans; [apply Rmin_l | apply Rmax_r]]).
Qed.

(** ** The pinned node and the boundary clamp *)

Lemma processedData_hover (gx gy : R) (pd : ProcessedGraphData.t) (st : State) :
  processedData (hover gx gy pd st) = processedData st.
Proof.
  unfold hover.
  destruct (findNodeAt _ _ _ _) as [[? ?]|]; [reflexivity |].
  destruct (findLinkAt _ _ _ _ _); reflexivity.
Qed.



(** C3, as the code has it: after a resize event that finds the container
    collapsed (width 0), one frame puts the only node at x = 20, to the
    right of [width - 20]. *)
Lemma collapsed_viewport_leaves_box :
  let st := step (Resize (Some (Rect.mk 0 0 0 0))) (mounted oneNodeGraph (fun _ => 0.5)) in
  Dimensions.width (dimensions st) = 0
  /\ dragNode st = None
  /\ fst <$> nodePosition (frames 1 st) 0 = Some 20
  /\ ~ (20 <= Dimensions.width (dimensions st) - 20).
Proof.
  cbn. unfold for_range, for_of. cbn.
  repeat split; [| lra]. f_equal.
  apply Rmax_left. eapply Rle_trans; [apply Rmin_l | lra].
Qed.

(** C3 (amended): after at least one frame every node other than
    [dragNode] has [20 <= x <= max 20 (width - 20)] and
    [20 <= y <= max 20 (height - 20)], so it lies in the box as soon as
    the viewport is at least 40 wide and 40 high. *)
Theorem unpinned_nodes_clamped (st : State) (n : nat) (pd : ProcessedGraphData.t)
    (i : nat) (node : ProcessedNode.t) :
  (1 <= n)%nat ->
  processedData (frames n st) = Some pd ->
  ProcessedGraphData.nodes pd !! i = Some node ->
  isDragNode (dragNode st) i = false ->
  let d := dimensions st in
  (20 <= ProcessedNode.x node <= Rmax 20 (Dimensions.width d - 20))
  /\ (20 <= ProcessedNode.y node <= Rmax 20 (Dimensions.height d - 20))
  /\ (40 <= Dimensions.width d -> 40 <= Dimensions.height d ->
      inBox d (ProcessedNode.x node, ProcessedNode.y node)).
Proof.
  intros Hn Hpd Hi Hfree d.
  destruct n as [|n]; [lia |]. rewrite frames_S in Hpd.
  destruct (animationFrame_unpinned (frames n st) pd i node Hpd Hi) as [before ->];
    [rewrite frames_dragNode; exact Hfree |].
  rewrite frames_dimensions. fold d.
  destruct (integrate_clamped (Dimensions.width d) (Dimensions.height d) before)
    as [[Hx1 Hx2] [Hy1 Hy2]].
  repeat split; try assumption; simpl.
  - rewrite Rmax_right in Hx2 by lra. exact Hx2.
  - rewrite Rmax_right in Hy2 by lra. exact Hy2.
Qed.

Lemma unpinned_nodes_clamped_witness :
  let st := mounted oneNodeGraph (fun _ => 0.5) in
  exists pd node,
    processedData (frames 1 st) = Some pd
    /\ ProcessedGraphData.nodes pd !! 0%nat = Some node
    /\ inBox (dimensions st) (ProcessedNode.x node, ProcessedNode.y node).
Proof.
  eexists. eexists. split; [reflexivity |]. split; [reflexivity |].
  refine (proj2 (proj2 (unpinned_nodes_clamped
            (mounted oneNodeGraph (fun _ => 0.5)) 1 _ 0 _ _ eq_refl eq_refl eq_refl)) _ _).
  - lia.
  - simpl. lra.
  - simpl. lra.
Defined.

(** ** Resizing the viewport *)

(** C4, as the code has it: a node placed at (400, 300) is moved to
    (550, 350) by a resize of the container from 800 x 600 to 1000 x 600,
    because the model is rebuilt with fresh draws. *)
Lemma resize_moves_existing_node :
  let st := mounted oneNodeGraph drawsHalfThenThreeQuarters in
  let st' := step (Resize (Some (Rect.mk 0 0 1000 600))) st in
  nodePosition st 0 = Some (400, 300)
  /\ nodePosition st' 0 = Some (550, 350)
  /\ nodePosition st' 0 <> nodePosition st 0.
Proof.
  cbn. unfold position. cbn.
  assert (800 / 2 + (0.5 - 0.5) * 200 = 400) as -> by lra.
  assert (600 / 2 + (0.5 - 0.5) * 200 = 300) as -> by lra.
  assert (1000 / 2 + (0.75 - 0.5) * 200 = 550) as -> by lra.
  assert (Rmax 500 600 / 2 + (0.75 - 0.5) * 200 = 350) as ->
    by (rewrite Rmax_right by lra; lra).
  repeat split. intros [= H _]. lra.
Qed.

(** C4 (amended): a resize event on a component whose graph data has a
    node list and a link list rebuilds the model for the new dimensions
    [width x max 500 height]: every node, whatever its position was, is
    placed anew around the new centre from two fresh draws, with zero
    velocity. *)
Theorem resize_rebuilds_model (st : State) (rect : Rect.t)
    (rawNodes : list GraphNode.t) (rawLinks : list GraphLink.t) :
  graphData st = Some (GraphData.mk (Some rawNodes) (Some rawLinks)) ->
  let st' := step (Resize (Some rect)) st in
  let d := Dimensions.mk (Rect.width rect) (Rmax 500 (Rect.height rect)) in
  dimensions st' = d
  /\ processedData st' = processGraphData (graphData st) d (random st)
  /\ (forall i raw, rawNodes !! i = Some raw ->
        nodePosition st' i
        = Some (Dimensions.width d / 2 + (random st (2 * i)%nat - 0.5) * 200,
                Dimensions.height d / 2 + (random st (2 * i + 1)%nat - 0.5) * 200)
        /\ nodeVelocity st' i = Some (0, 0))
  /\ (forall i, nodePosition st' i = None <-> rawNodes !! i = None).
Proof.
  intros Hg st' d. unfold st'. simpl. unfold updateDimensions, runGraphEffect.
  simpl. rewrite Hg. simpl. fold d.
  repeat split.
  - unfold nodePosition. simpl. unfold buildNodes.
    rewrite list_lookup_imap, H. reflexivity.
  - unfold nodeVelocity. simpl. unfold buildNodes.
    rewrite list_lookup_imap, H. reflexivity.
  - unfold nodePosition. simpl. unfold buildNodes.
    rewrite list_lookup_imap. destruct (rawNodes !! i); [discriminate | reflexivity].
  - intros H. unfold nodePosition. simpl. unfold buildNodes.
    rewrite list_lookup_imap, H. reflexivity.
Qed.

Lemma resize_rebuilds_model_witness :
  let st := mounted oneNodeGraph drawsHalfThenThreeQuarters in
  let st' := step (Resize (Some (Rect.mk 0 0 1000 600))) st in
  nodePosition st' 0
  = Some (1000 / 2 + (0.75 - 0.5) * 200, Rmax 500 600 / 2 + (0.75 - 0.5) * 200).
Proof.
  exact (proj1 (proj1 (proj2 (proj2
    (resize_rebuilds_model (mounted oneNodeGraph drawsHalfThenThreeQuarters)
       (Rect.mk 0 0 1000 600) _ _ eq_refl))) 0%nat _ eq_refl)).
Defined.

(** ** Repulsion *)

Lemma addVelocity_addVelocity (a b c d : R) (node : ProcessedNode.t) :
  addVelocity c d (addVelocity a b node) = addVelocity (a + c) (b + d) node.
Proof. unfold addVelocity, ProcessedNode.set_vel. simpl. f_equal; lra. Qed.

Lemma repulsionForce_ext (node node' other other' : ProcessedNode.t) :
  position node = position node' ->
  position other = position other' ->
  repulsionForce node other = repulsionForce node' other'.
Proof.
  unfold position, repulsionForce. intros [= -> ->] [= -> ->]. reflexivity.
Qed.

(** The inner loop over [js], started with [(a, b)] already added. *)
Lemma repulsionLoop_insert (i : nat) (ni : ProcessedNode.t)
    (nodes : list ProcessedNode.t) (js : list nat) (a b : R) :
  nodes !! i = Some ni ->
  foldl (fun acc j => repulsionStep i j acc) (<[i := addVelocity a b ni]> nodes) js
  = <[i := addVelocity
             (foldl (fun acc j =>
                       if Nat.eqb i j then acc
                       else
                         match nodes !! j with
                         | Some otherNode =>
                             (acc.1 + (repulsionForce ni otherNode).1,
                              acc.2 + (repulsionForce ni otherNode).2)
                         | None => acc
                         end) (a, b) js).1
             (foldl (fun acc j =>
                       if Nat.eqb i j then acc
                       else
                         match nodes !! j with
                         | Some otherNode =>
                             (acc.1 + (repulsionForce ni otherNode).1,
                              acc.2 + (repulsionForce ni otherNode).2)
                         | None => acc
                         end) (a, b) js).2
             ni]> nodes.
Proof.
  intros Hi. revert a b. induction js as [|j js IH]; intros a b; simpl; [reflexivity |].
  unfold repulsionStep at 2.
  destruct (Nat.eqb_spec i j) as [Heq|Hne]; [apply IH |].
  rewrite list_lookup_insert_ne by exact Hne.
  destruct (nodes !! j) as [otherNode|]; [| apply IH].
  erewrite alter_insert_lookup
    by (apply list_lookup_insert_eq; eapply lookup_lt_Some; exact Hi).
  rewrite list_insert_insert_eq.
  rewrite (repulsionForce_ext (addVelocity a b ni) ni otherNode otherNode)
    by reflexivity.
  rewrite addVelocity_addVelocity. apply IH.
Qed.

Lemma forceSum_ext (w h : R) (l1 l2 : list ProcessedNode.t) (i : nat)
    (node : ProcessedNode.t) :
  position <$> l1 = position <$> l2 ->
  forceSum w h l1 i node = forceSum w h l2 i node.
Proof.
  intros Hpos. unfold forceSum.
  assert (length l1 = length l2) as ->
    by (rewrite <- (length_fmap position l1), Hpos; apply length_fmap).
  apply foldl_pointwise. intros acc j _.
  destruct (Nat.eqb i j); [reflexivity |].
  assert (position <$> l1 !! j = position <$> l2 !! j) as Hj
    by (rewrite <- !list_lookup_fmap, Hpos; reflexivity).
  destruct (l1 !! j) as [o1|], (l2 !! j) as [o2|]; simpl in Hj;
    try discriminate; [| reflexivity].
  rewrite (repulsionForce_ext node node o1 o2); [reflexivity | reflexivity | congruence].
Qed.

(** The first loop adds to every node other than [dragNode] its
    [forceSum], computed from the positions before the loop. *)
Lemma forceLoop_imap (w h : R) (drag : option nat) (nodes : list ProcessedNode.t) :
  for_range (length nodes) (forceStep w h drag) nodes
  = imap (fun i node =>
            if isDragNode drag i then node
            else addVelocity (forceSum w h nodes i node).1
                             (forceSum w h nodes i node).2 node) nodes.
Proof.
  apply (for_range_alter (fun acc => position <$> acc = position <$> nodes)).
  - intros acc i Hpos Hi. unfold forceStep.
    destruct (isDragNode drag i); [symmetry; apply list_alter_id; reflexivity |].
    assert (length acc = length nodes) as Hlen
      by (rewrite <- (length_fmap position acc), Hpos; apply length_fmap).
    destruct (lookup_lt_is_Some_2 acc i) as [ni Hni]; [lia |].
    rewrite !(alter_insert_lookup _ acc i ni) by exact Hni.
    unfold for_range.
    rewrite (repulsionLoop_insert i ni acc _ _ _ Hni).
    rewrite <- (forceSum_ext w h acc nodes i ni Hpos).
    unfold forceSum. rewrite Hlen.
    destruct (centeringForce w h ni) as [c1 c2]. reflexivity.
  - intros acc i Hpos. rewrite <- Hpos.
    apply list_eq. intros j. rewrite !list_lookup_fmap.
    destruct (decide (i = j)) as [<-|Hne].
    + rewrite list_lookup_alter_eq. destruct (acc !! i); simpl; [| reflexivity].
      destruct (isDragNode drag i); reflexivity.
    + rewrite list_lookup_alter_ne by exact Hne. reflexivity.
  - reflexivity.
Qed.

Lemma num_or_nonzero (v d : R) : v <> 0 -> num_or v d = v.
Proof. intros Hv. unfold num_or. destruct (Req_dec_T v 0); [contradiction | reflexivity]. Qed.

Lemma num_or_zero (d : R) : num_or 0 d = d.
Proof. unfold num_or. destruct (Req_dec_T 0 0); [reflexivity | contradiction]. Qed.

Lemma sum_squares_zero (a b : R) : a * a + b * b = 0 -> a = 0 /\ b = 0.
Proof. intros H. split; nra. Qed.

(** C2, as the code has it: two nodes half a unit apart repel each other
    with magnitude 1000 / 0.25 = 4000, not with the 1000 that a distance
    floored at 1 gives; the first loop adds exactly that to the velocity. *)
Lemma close_nodes_repel_unfloored :
  let a := nodeAt "A" 400 300 in
  let b := nodeAt "B" 400.5 300 in
  repulsionForce a b = (-4000, 0)
  /\ spec_repulsionForce a b = (-1000, 0)
  /\ ProcessedNode.vx <$> for_range 2 (forceStep 800 600 None) [a; b] !! 0%nat
     = Some (-4000)
  /\ repulsionForce a b <> spec_repulsionForce a b.
Proof.
  intros a b.
  assert (sqrt ((400 - 400.5) * (400 - 400.5) + (300 - 300) * (300 - 300)) = 0.5) as Hd.
  { replace ((400 - 400.5) * (400 - 400.5) + (300 - 300) * (300 - 300))
      with (0.5 * 0.5) by lra.
    apply sqrt_square. lra. }
  assert (repulsionForce a b = (-4000, 0)) as Hcode.
  { unfold repulsionForce. simpl. rewrite Hd, num_or_nonzero by lra.
    f_equal; lra. }
  assert (spec_repulsionForce a b = (-1000, 0)) as Hspec.
  { unfold spec_repulsionForce. simpl. rewrite Hd, Rmax_right by lra.
    f_equal; lra. }
  split; [exact Hcode |]. split; [exact Hspec |]. split.
  - change 2%nat with (length [a; b]). rewrite forceLoop_imap.
    unfold forceSum. subst a b. cbn -[repulsionForce nodeAt].
    rewrite Hcode. simpl. f_equal. lra.
  - rewrite Hcode, Hspec. intros [= H]. lra.
Qed.

(** C2 (amended): in the first loop of a frame a node other than
    [dragNode] receives, on top of the centering term, the sum over the
    other nodes of [repulsionForce]; with [d] the distance, that term is
    unit(difference) x 1000 / d^2 for every [d <> 0], below 1 included,
    it is zero when [d = 0], where the code takes 1 for the distance, and
    it is the floored formula of the specification as soon as [1 <= d]. *)
Theorem repulsion_floored_only_at_zero (w h : R) (drag : option nat)
    (nodes : list ProcessedNode.t) (i : nat) (node : ProcessedNode.t) :
  nodes !! i = Some node ->
  isDragNode drag i = false ->
  for_range (length nodes) (forceStep w h drag) nodes !! i
  = Some (addVelocity (forceSum w h nodes i node).1 (forceSum w h nodes i node).2 node)
  /\ forall otherNode,
       let dx := ProcessedNode.x node - ProcessedNode.x otherNode in
       let dy := ProcessedNode.y node - ProcessedNode.y otherNode in
       let d := sqrt (dx * dx + dy * dy) in
       (d <> 0 ->
        repulsionForce node otherNode
        = ((dx / d) * (1000 / (d * d)), (dy / d) * (1000 / (d * d))))
       /\ (d = 0 -> repulsionForce node otherNode = (0, 0))
       /\ (1 <= d -> repulsionForce node otherNode = spec_repulsionForce node otherNode).
Proof.
  intros Hi Hfree. split.
  - rewrite forceLoop_imap, list_lookup_imap, Hi. simpl. rewrite Hfree. reflexivity.
  - intros otherNode dx dy d. repeat split.
    + intros Hd. unfold repulsionForce. fold dx dy d.
      rewrite num_or_nonzero by exact Hd. reflexivity.
    + intros Hd. unfold repulsionForce. fold dx dy d. rewrite Hd, num_or_zero.
      apply sqrt_eq_0 in Hd; [| nra].
      apply sum_squares_zero in Hd as [-> ->]. f_equal; lra.
    + intros Hd. unfold repulsionForce, spec_repulsionForce. fold dx dy d.
      rewrite num_or_nonzero by lra. rewrite Rmax_left by exact Hd. reflexivity.
Qed.

Lemma repulsion_floored_only_at_zero_witness :
  for_range 2 (forceStep 800 600 None) [nodeAt "A" 400 300; nodeAt "B" 400.5 300] !! 0%nat
  = Some (addVelocity
            (forceSum 800 600 [nodeAt "A" 400 300; nodeAt "B" 400.5 300] 0
               (nodeAt "A" 400 300)).1
            (forceSum 800 600 [nodeAt "A" 400 300; nodeAt "B" 400.5 300] 0
               (nodeAt "A" 400 300)).2
            (nodeAt "A" 400 300)).
Proof.
  exact (proj1 (repulsion_floored_only_at_zero 800 600 None
                  [nodeAt "A" 400 300; nodeAt "B" 400.5 300] 0 (nodeAt "A" 400 300)
                  eq_refl eq_refl)).
Defined.

(** ** Zooming with the wheel *)

Lemma zoomAt_accepted (delta mx my : R) (t : Transform.t) :
  zoomAccepted delta t ->
  zoomAt delta mx my t
  = Transform.mk (Transform.scale t * delta)
      (Transform.translateX t + (1 - delta) * (mx - Transform.translateX t))
      (Transform.translateY t + (1 - delta) * (my - Transform.translateY t)).
Proof.
  intros [Hlo Hhi]. unfold zoomAt.
  destruct (Rlt_dec _ _); [lra |]. destruct (Rgt_dec _ _); [lra | reflexivity].
Qed.

Lemma zoomAt_rejected (delta mx my : R) (t : Transform.t) :
  ~ zoomAccepted delta t -> zoomAt delta mx my t = t.
Proof.
  intros Hno. unfold zoomAt.
  destruct (Rlt_dec _ _); [reflexivity |]. destruct (Rgt_dec _ _); [reflexivity |].
  exfalso. apply Hno. unfold zoomAccepted. lra.
Qed.

(** An accepted zoom step keeps the world point under the focal point. *)
Lemma zoomAt_anchor (delta mx my : R) (t : Transform.t) :
  zoomAccepted delta t ->
  screenToGraph (zoomAt delta mx my t) mx my = screenToGraph t mx my.
Proof.
  intros Hacc. rewrite zoomAt_accepted by exact Hacc.
  destruct Hacc as [Hlo _]. destruct t as [s tx ty]. simpl in Hlo.
  assert (s <> 0) by (intros ->; lra).
  assert (delta <> 0) by (intros ->; lra).
  unfold screenToGraph. simpl. f_equal; field; auto.
Qed.

Lemma wheelDelta_cases (deltaY : R) :
  (deltaY < 0 /\ wheelDelta deltaY = 1.1) \/ (0 <= deltaY /\ wheelDelta deltaY = 0.9).
Proof.
  unfold wheelDelta. destruct (Rlt_dec deltaY 0); [left | right]; split; (reflexivity || lra).
Qed.

(** C5, as the code has it: at scale 1 a wheel event with [deltaY = 1]
    leaves the scale at 0.9, which is not 1 / 1.1. *)
Lemma wheel_out_is_nine_tenths :
  let st := mounted oneNodeGraph (fun _ => 0.5) in
  Transform.scale (transform st) = 1
  /\ Transform.scale (transform (step (Wheel 0 0 1) st)) = 0.9
  /\ 0.9 <> 1 * (1 / 1.1).
Proof.
  split; [reflexivity |]. split; [| lra]. simpl.
  unfold wheelDelta. destruct (Rlt_dec 1 0); [lra |].
  rewrite zoomAt_accepted by (unfold zoomAccepted; simpl; lra).
  simpl. lra.
Qed.

(** C5 (amended): on a mounted canvas a wheel event multiplies the scale
    by 1.1 when [deltaY < 0] and by 0.9 otherwise, keeping the world point
    under the cursor, provided the product stays within [0.1, 10]; it
    changes nothing otherwise. *)
Theorem wheel_zoom_step (st : State) (rect : Rect.t) (cx cy deltaY : R) :
  canvas st = Some rect ->
  let t := transform st in
  let t' := transform (step (Wheel cx cy deltaY) st) in
  let mouseX := cx - Rect.left rect in
  let mouseY := cy - Rect.top rect in
  let delta := wheelDelta deltaY in
  (deltaY < 0 -> delta = 1.1)
  /\ (0 <= deltaY -> delta = 0.9)
  /\ (zoomAccepted delta t ->
      Transform.scale t' = Transform.scale t * delta
      /\ screenToGraph t' mouseX mouseY = screenToGraph t mouseX mouseY)
  /\ (~ zoomAccepted delta t -> step (Wheel cx cy deltaY) st = st).
Proof.
  intros Hcv t t' mouseX mouseY delta.
  assert (t' = zoomAt delta mouseX mouseY t) as Ht'.
  { unfold t'. simpl. unfold handleWheel. rewrite Hcv. reflexivity. }
  destruct (wheelDelta_cases deltaY) as [[Hneg Hd]|[Hpos Hd]]; fold delta in Hd.
  all: split; [intros ?; (exact Hd || lra) |].
  all: split; [intros ?; (exact Hd || lra) |].
  all: split.
  all: try (intros Hacc; rewrite Ht'; split; [| apply zoomAt_anchor; exact Hacc];
            rewrite zoomAt_accepted by exact Hacc; reflexivity).
  all: intros Hno; simpl; unfold handleWheel; rewrite Hcv;
       fold mouseX mouseY delta; rewrite zoomAt_rejected by exact Hno;
       destruct st; reflexivity.
Qed.

Lemma wheel_zoom_step_witness :
  Transform.scale
    (transform (step (Wheel 10 20 (-1)) (mounted oneNodeGraph (fun _ => 0.5))))
  = 1 * wheelDelta (-1)
  /\ wheelDelta (-1) = 1.1.
Proof.
  pose proof (wheel_zoom_step (mounted oneNodeGraph (fun _ => 0.5))
                (Rect.mk 0 0 800 600) 10 20 (-1) eq_refl) as (Hin & _ & Hacc & _).
  assert (wheelDelta (-1) = 1.1) as Hd by (apply Hin; lra).
  split; [| exact Hd].
  apply Hacc. unfold zoomAccepted. rewrite Hd. simpl. lra.
Defined.

(** ** Zoom steps undo each other *)

(** C6: for a scale within [0.1, 10], a focal point and a factor [f] such
    that the step by [f] and then the step by [1 / f] are accepted, the
    two steps at the same focal point give back the transform, and every
    accepted step keeps the world point under the focal point. *)
Theorem zoom_round_trip (t : Transform.t) (px py f : R) :
  0.1 <= Transform.scale t <= 10 ->
  zoomAccepted f t ->
  zoomAccepted (1 / f) (zoomAt f px py t) ->
  zoomAt (1 / f) px py (zoomAt f px py t) = t
  /\ screenToGraph (zoomAt f px py t) px py = screenToGraph t px py
  /\ screenToGraph (zoomAt (1 / f) px py (zoomAt f px py t)) px py
     = screenToGraph (zoomAt f px py t) px py.
Proof.
  intros Hs Hf Hinv.
  split; [| split; apply zoomAt_anchor; assumption].
  rewrite (zoomAt_accepted (1 / f)) by exact Hinv.
  rewrite zoomAt_accepted by exact Hf.
  destruct Hf as [Hlo _]. destruct t as [s tx ty]. simpl in *.
  assert (f <> 0) by (intros ->; lra).
  f_equal; field; auto.
Qed.

Lemma zoom_round_trip_witness :
  zoomAt (1 / 2) 100 50 (zoomAt 2 100 50 (Transform.mk 1 30 (-40)))
  = Transform.mk 1 30 (-40).
Proof.
  refine (proj1 (zoom_round_trip (Transform.mk 1 30 (-40)) 100 50 2 _ _ _)).
  - simpl. lra.
  - unfold zoomAccepted. simpl. lra.
  - rewrite zoomAt_accepted by (unfold zoomAccepted; simpl; lra).
    unfold zoomAccepted. simpl. lra.
Defined.

(** ** Hovering *)

Lemma mode_Idle (st : State) :
  mode st = Idle ->
  isPanning st = false
  /\ (isDragging st = false \/ dragNode st = None).
Proof.
  unfold mode.
  destruct (isPanning st); [discriminate |].
  destruct (isDragging st), (dragNode st); try discriminate; auto.
Qed.

Lemma findNodeAt_Some (gx gy : R) (k0 : nat) (nodes : list ProcessedNode.t)
    (k : nat) (node : ProcessedNode.t) :
  findNodeAt gx gy k0 nodes = Some (k, node) ->
  exists j,
    k = (k0 + j)%nat
    /\ nodes !! j = Some node
    /\ nodeHit gx gy node = true
    /\ forall j' other, (j' < j)%nat -> nodes !! j' = Some other ->
         nodeHit gx gy other = false.
Proof.
  revert k0. induction nodes as [|first rest IH]; intros k0; simpl; [discriminate |].
  destruct (nodeHit gx gy first) eqn:Hfirst.
  - intros [= <- <-]. exists 0%nat. repeat split; auto with lia.
    all: try (intros; lia).
  - intros Hfind. destruct (IH _ Hfind) as (j & -> & Hj & Hhit & Hmin).
    exists (S j). repeat split; auto with lia.
    intros [|j'] other Hlt; simpl.
    + intros [= <-]. exact Hfirst.
    + apply Hmin. lia.
Qed.

Lemma findNodeAt_None (gx gy : R) (k0 : nat) (nodes : list ProcessedNode.t) :
  findNodeAt gx gy k0 nodes = None ->
  forall j other, nodes !! j = Some other -> nodeHit gx gy other = false.
Proof.
  revert k0. induction nodes as [|first rest IH]; intros k0; simpl.
  - intros _ j other Hj. rewrite lookup_nil in Hj. discriminate.
  - destruct (nodeHit gx gy first) eqn:Hfirst; [discriminate |].
    intros Hfind [|j] other; simpl; [intros [= <-]; exact Hfirst | eapply IH; exact Hfind].
Qed.

(** C8: in the idle mode, when the world point of the cursor is inside
    the hit radius of some node, a pointer move reports the first such
    node in array order, at its screen position, and no link, whatever the
    links are; a link is reported only if no node contains the point. *)
Theorem hover_prefers_nodes (st : State) (cx cy : R) (rect : Rect.t)
    (pd : ProcessedGraphData.t) :
  canvas st = Some rect ->
  mode st = Idle ->
  processedData st = Some pd ->
  let g := screenToGraph (transform st) (cx - Rect.left rect) (cy - Rect.top rect) in
  let st' := step (MouseMove cx cy) st in
  (forall i node,
      ProcessedGraphData.nodes pd !! i = Some node ->
      nodeHit g.1 g.2 node = true ->
      tooltipLink st' = None
      /\ exists k first,
           (k <= i)%nat
           /\ ProcessedGraphData.nodes pd !! k = Some first
           /\ nodeHit g.1 g.2 first = true
           /\ (forall j other, (j < k)%nat ->
                 ProcessedGraphData.nodes pd !! j = Some other ->
                 nodeHit g.1 g.2 other = false)
           /\ tooltipNode st'
              = Some (NodeTooltip.mk first
                        (ProcessedNode.x first * Transform.scale (transform st)
                         + Transform.translateX (transform st))
                        (ProcessedNode.y first * Transform.scale (transform st)
                         + Transform.translateY (transform st))))
  /\ (forall hoveredLink,
        tooltipLink st' = Some hoveredLink ->
        tooltipNode st' = None
        /\ findLinkAt (transform st) (ProcessedGraphData.nodes pd) g.1 g.2
             (ProcessedGraphData.links pd) = Some hoveredLink
        /\ forall i node, ProcessedGraphData.nodes pd !! i = Some node ->
             nodeHit g.1 g.2 node = false).
Proof.
  intros Hcv Hmode Hpd g st'.
  apply mode_Idle in Hmode as [Hpan Hnodrag].
  assert (st' = hover g.1 g.2 pd st) as ->.
  { unfold st'. simpl. unfold handleMouseMove. rewrite Hcv, Hpan, Hpd. fold g.
    destruct Hnodrag as [-> | ->]; [reflexivity |].
    destruct (isDragging st); reflexivity. }
  unfold hover.
  destruct (findNodeAt g.1 g.2 0 (ProcessedGraphData.nodes pd)) as [[k first]|] eqn:Hfind.
  - apply findNodeAt_Some in Hfind as (j & -> & Hj & Hhit & Hmin). simpl.
    split; [| intros ? [=]].
    intros i node Hi Hnode. split; [reflexivity |].
    exists j, first. repeat split; auto.
    destruct (le_lt_dec j i) as [Hle|Hlt]; [exact Hle |].
    exfalso. pose proof (Hmin i node Hlt Hi) as Hf.
    change (nodeHit g.1 g.2 node = true) in Hnode. congruence.
  - pose proof (findNodeAt_None _ _ _ _ Hfind) as Hnone.
    split.
    + intros i node Hi Hnode. exfalso. pose proof (Hnone i node Hi) as Hf.
      change (nodeHit g.1 g.2 node = true) in Hnode. congruence.
    + intros hoveredLink.
      destruct (findLinkAt _ _ _ _ _) as [l|]; simpl; [| discriminate].
      intros [= ->]. auto.
Qed.

Lemma hoverState_nodeHit :
  nodeHit ((350 - 0 - 0) / 1) ((300 - 0 - 0) / 1)
    (placeNode 800 600 drawsLeftRight 0 (GraphNode.mk "A" 10 "main" None)) = true.
Proof.
  unfold nodeHit. simpl.
  destruct (Rlt_dec _ _) as [|Hno]; [reflexivity |].
  exfalso. apply Hno.
  match goal with |- sqrt ?a < _ => replace a with 0 by lra end.
  rewrite sqrt_0. lra.
Qed.

Lemma hoverState_model :
  processedData hoverState
  = Some (ProcessedGraphData.mk
            [placeNode 800 600 drawsLeftRight 0 (GraphNode.mk "A" 10 "main" None);
             placeNode 800 600 drawsLeftRight 1 (GraphNode.mk "B" 10 "minor" None)]
            [ProcessedLink.mk 0 1 (opt_num_or (Some 5) 2) "Friend"]).
Proof. reflexivity. Qed.

(** The same point is within the corridor of the link from A to B. *)
Lemma hoverState_linkHit :
  is_Some
    (linkHit (transform hoverState)
       [placeNode 800 600 drawsLeftRight 0 (GraphNode.mk "A" 10 "main" None);
        placeNode 800 600 drawsLeftRight 1 (GraphNode.mk "B" 10 "minor" None)]
       ((350 - 0 - 0) / 1) ((300 - 0 - 0) / 1)
       (ProcessedLink.mk 0 1 (opt_num_or (Some 5) 2) "Friend")).
Proof.
  unfold linkHit. cbn -[segmentDistance placeNode].
  match goal with
  | |- context [segmentDistance ?gx ?gy ?a ?b] =>
      assert (segmentDistance gx gy a b = 0) as ->
  end.
  { unfold segmentDistance. simpl.
    destruct (Req_dec_T _ _) as [Hz|_]; [lra |].
    destruct (Rlt_dec _ _) as [Hneg|_]; [lra |].
    destruct (Rgt_dec _ _) as [Hbig|_]; [lra |].
    match goal with |- sqrt ?a = 0 => replace a with 0 by lra end.
    apply sqrt_0. }
  destruct (Rlt_dec _ _) as [|Hno]; [eexists; reflexivity |].
  exfalso. apply Hno. lra.
Qed.

Lemma hover_prefers_nodes_witness :
  tooltipLink (step (MouseMove 350 300) hoverState) = None
  /\ is_Some (tooltipNode (step (MouseMove 350 300) hoverState)).
Proof.
  destruct (proj1 (hover_prefers_nodes hoverState 350 300 (Rect.mk 0 0 800 600)
                     _ eq_refl eq_refl eq_refl)
              0%nat _ eq_refl hoverState_nodeHit)
    as (Hlink & k & first & _ & _ & _ & _ & Hnode).
  split; [exact Hlink |]. rewrite Hnode. eexists. reflexivity.
Defined.

(** ** Dragging a node *)

Lemma mode_DraggingNode (st : State) (d : nat) :
  mode st = DraggingNode d
  <-> isPanning st = false /\ isDragging st = true /\ dragNode st = Some d.
Proof.
  unfold mode.
  destruct (isPanning st), (isDragging st), (dragNode st) as [d'|];
    split; try discriminate; try (intros (? & ? & ?); discriminate).
  - intros [= ->]. auto.
  - intros (_ & _ & [= ->]). reflexivity.
Qed.





(** ** Entering the panning mode *)

Lemma mode_Panning (st : State) : mode st = Panning <-> isPanning st = true.
Proof.
  unfold mode. destruct (isPanning st); [tauto |].
  destruct (isDragging st), (dragNode st); split; discriminate.
Qed.

Lemma isPanning_runGraphEffect (st : State) :
  isPanning (runGraphEffect st) = isPanning st.
Proof.
  unfold runGraphEffect.
  destruct (processGraphData _ _ _); reflexivity.
Qed.

Lemma isPanning_hover (gx gy : R) (pd : ProcessedGraphData.t) (st : State) :
  isPanning (hover gx gy pd st) = isPanning st.
Proof.
  unfold hover.
  destruct (findNodeAt _ _ _ _) as [[? ?]|]; [reflexivity |].
  destruct (findLinkAt _ _ _ _ _); reflexivity.
Qed.

(** C9, as the code has it: a bare press of the Alt key in the idle mode
    switches the controller to panning, without any button press. *)
Lemma alt_key_enters_panning :
  mode idleState = Idle /\ mode (step (KeyDown "Alt") idleState) = Panning.
Proof. split; reflexivity. Qed.

(** C9 (amended): from a state that is not panning, an event leads to the
    panning mode exactly when it is a mouse press with [buttons = 4], or
    with [buttons = 1] and the Alt key held, on a mounted canvas with a
    built model, or a key press of Alt. *)
Theorem panning_entered_iff (st : State) (e : Event) :
  isPanning st = false ->
  mode (step e st) = Panning <-> panTrigger st e.
Proof.
  intros Hidle. rewrite mode_Panning.
  destruct e as [cx cy|cx cy b alt| |cx cy dy|k|k| | | |c|g| ]; simpl.
  - unfold handleMouseMove.
    destruct (canvas st); [| rewrite Hidle; split; [discriminate | tauto]].
    rewrite Hidle.
    destruct (isDragging st), (dragNode st), (processedData st); simpl;
      rewrite ?isPanning_hover, ?assignNodes_isPanning, ?Hidle;
      split; (discriminate || tauto).
  - unfold handleMouseDown.
    destruct (canvas st) as [rect|]; simpl;
      [| rewrite Hidle; split; [discriminate | intros ([? ?] & _); discriminate]].
    destruct (processedData st) as [pd|]; simpl;
      [| rewrite Hidle; split; [discriminate | intros (_ & [? ?] & _); discriminate]].
    destruct (Nat.eqb_spec b 4) as [->|Hb4]; simpl.
    { split; [intros _ | reflexivity]. repeat split; eauto. }
    destruct (Nat.eqb_spec b 1) as [->|Hb1]; simpl.
    { destruct alt; simpl.
      - split; [intros _ | reflexivity]. repeat split; eauto.
      - destruct (findNodeAt _ _ _ _) as [[? ?]|]; simpl; rewrite Hidle;
          (split; [discriminate | intros (_ & _ & [?|[? ?]]); congruence]). }
    destruct (findNodeAt _ _ _ _) as [[? ?]|]; simpl; rewrite Hidle;
      (split; [discriminate | intros (_ & _ & [?|[? ?]]); congruence]).
  - split; [discriminate | tauto].
  - unfold handleWheel. destruct (canvas st); simpl; rewrite Hidle;
      split; (discriminate || tauto).
  - unfold handleKeyDown. rewrite Hidle. simpl. rewrite andb_true_r.
    destruct (bool_decide_reflect (k = "Alt")) as [->|Hk]; simpl.
    + destruct (canvas st); simpl; tauto.
    + destruct (bool_decide _ || bool_decide _)%bool; simpl; rewrite Hidle;
        split; (discriminate || tauto).
  - unfold handleKeyUp. destruct (bool_decide _); simpl; rewrite ?Hidle;
      split; (discriminate || tauto).
  - rewrite Hidle. split; (discriminate || tauto).
  - rewrite Hidle. split; (discriminate || tauto).
  - rewrite Hidle. split; (discriminate || tauto).
  - unfold updateDimensions. destruct c; rewrite ?isPanning_runGraphEffect; simpl;
      rewrite Hidle; split; (discriminate || tauto).
  - unfold receiveGraphData. rewrite isPanning_runGraphEffect. simpl.
    rewrite Hidle. split; (discriminate || tauto).
  - unfold animationFrame.
    destruct (processedData st); [| rewrite Hidle; split; (discriminate || tauto)].
    destruct (Nat.eqb _ _); rewrite ?assignNodes_isPanning, Hidle;
      split; (discriminate || tauto).
Qed.

Lemma panning_entered_iff_witness :
  isPanning idleState = false
  /\ (mode (step (KeyDown "Alt") idleState) = Panning
      <-> panTrigger idleState (KeyDown "Alt")).
Proof.
  split; [reflexivity |].
  apply (panning_entered_iff idleState (KeyDown "Alt")). reflexivity.
Defined.

(** * Further properties *)

(** ** The camera under every event *)

Lemma transform_hover (gx gy : R) (pd : ProcessedGraphData.t) (st : State) :
  transform (hover gx gy pd st) = transform st.
Proof.
  unfold hover.
  destruct (findNodeAt _ _ _ _) as [[? ?]|]; [reflexivity |].
  destruct (findLinkAt _ _ _ _ _); reflexivity.
Qed.

Lemma transform_runGraphEffect (st : State) :
  transform (runGraphEffect st) = transform st.
Proof. unfold runGraphEffect. destruct (processGraphData _ _ _); reflexivity. Qed.

Lemma zoomAt_scale_in_range (delta mx my : R) (t : Transform.t) :
  0.1 <= Transform.scale t <= 10 ->
  0.1 <= Transform.scale (zoomAt delta mx my t) <= 10.
Proof.
  intros Ht. unfold zoomAt.
  destruct (Rlt_dec _ _); [exact Ht |]. destruct (Rgt_dec _ _); [exact Ht |].
  simpl. lra.
Qed.

Lemma step_scale_in_range (e : Event) (st : State) :
  scaleInRange st -> scaleInRange (step e st).
Proof.
  unfold scaleInRange. intros Hs.
  destruct e as [cx cy|cx cy b alt| |cx cy dy|k|k| | | |c|g| ]; simpl.
  - unfold handleMouseMove. destruct (canvas st); [| exact Hs].
    destruct (isPanning st); [exact Hs |].
    destruct (isDragging st), (dragNode st), (processedData st);
      rewrite ?transform_hover; exact Hs.
  - unfold handleMouseDown. destruct (canvas st), (processedData st); try exact Hs.
    destruct (_ || _)%bool; [exact Hs |].
    destruct (findNodeAt _ _ _ _) as [[? ?]|]; exact Hs.
  - exact Hs.
  - unfold handleWheel. destruct (canvas st); [| exact Hs].
    simpl. apply zoomAt_scale_in_range, Hs.
  - unfold handleKeyDown.
    destruct (_ || _)%bool, (_ && _)%bool, (canvas st); simpl; lra.
  - unfold handleKeyUp. destruct (bool_decide _); exact Hs.
  - unfold Rmin. destruct (Rle_dec _ _); lra.
  - unfold Rmax. destruct (Rle_dec _ _); lra.
  - lra.
  - unfold updateDimensions. destruct c; [| exact Hs].
    rewrite transform_runGraphEffect. exact Hs.
  - unfold receiveGraphData. rewrite transform_runGraphEffect. exact Hs.
  - unfold animationFrame. destruct (processedData st); [| exact Hs].
    destruct (Nat.eqb _ _); exact Hs.
Qed.

(** X1: whatever the events are, wheel, buttons, keys, pointer, resize,
    new data or frames, a scale within [0.1, 10] stays within [0.1, 10]. *)
Theorem scale_stays_in_range (es : list Event) (st : State) :
  scaleInRange st -> scaleInRange (run es st).
Proof.
  unfold run. revert st. induction es as [|e es IH]; intros st Hs; simpl; [exact Hs |].
  apply IH, step_scale_in_range, Hs.
Qed.

Lemma scale_stays_in_range_witness :
  scaleInRange
    (run [ClickZoomIn; Wheel 10 10 (-1); ClickZoomOut; KeyDown "r"]
       (mounted oneNodeGraph (fun _ => 0.5))).
Proof.
  apply (scale_stays_in_range _ (mounted oneNodeGraph (fun _ => 0.5))).
  unfold scaleInRange. simpl. lra.
Defined.

(** ** Screen and graph coordinates *)

Lemma tooltipNode_hover (gx gy : R) (pd : ProcessedGraphData.t) (st : State)
    (tip : NodeTooltip.t) :
  tooltipNode (hover gx gy pd st) = Some tip ->
  NodeTooltip.x tip
  = (graphToScreen (transform st) (ProcessedNode.x (NodeTooltip.node tip))
       (ProcessedNode.y (NodeTooltip.node tip))).1
  /\ NodeTooltip.y tip
     = (graphToScreen (transform st) (ProcessedNode.x (NodeTooltip.node tip))
          (ProcessedNode.y (NodeTooltip.node tip))).2.
Proof.
  unfold hover.
  destruct (findNodeAt _ _ _ _) as [[? node]|].
  - simpl. intros [= <-]. split; reflexivity.
  - destruct (findLinkAt _ _ _ _ _); simpl; discriminate.
Qed.

Lemma graphToScreen_screenToGraph (t : Transform.t) (px py : R) :
  Transform.scale t <> 0 ->
  graphToScreen t (screenToGraph t px py).1 (screenToGraph t px py).2 = (px, py).
Proof.
  intros Hs. destruct t as [s tx ty]. unfold graphToScreen, screenToGraph.
  simpl in *. f_equal; field; exact Hs.
Qed.

Lemma screenToGraph_graphToScreen (t : Transform.t) (gx gy : R) :
  Transform.scale t <> 0 ->
  screenToGraph t (graphToScreen t gx gy).1 (graphToScreen t gx gy).2 = (gx, gy).
Proof.
  intros Hs. destruct t as [s tx ty]. unfold graphToScreen, screenToGraph.
  simpl in *. f_equal; field; exact Hs.
Qed.

(** X2: for a non-zero scale the two conversions are inverse to each
    other, and the screen point at which an idle pointer move over a built
    model places the tooltip of a node converts back to the position of
    that node. *)
Theorem screen_graph_round_trip (st : State) (px py cx cy : R) :
  Transform.scale (transform st) <> 0 ->
  let t := transform st in
  graphToScreen t (screenToGraph t px py).1 (screenToGraph t px py).2 = (px, py)
  /\ screenToGraph t (graphToScreen t px py).1 (graphToScreen t px py).2 = (px, py)
  /\ (forall rect pd tip,
        canvas st = Some rect ->
        processedData st = Some pd ->
        mode st = Idle ->
        tooltipNode (step (MouseMove cx cy) st) = Some tip ->
        screenToGraph t (NodeTooltip.x tip) (NodeTooltip.y tip)
        = (ProcessedNode.x (NodeTooltip.node tip),
           ProcessedNode.y (NodeTooltip.node tip))).
Proof.
  intros Hs t.
  split; [apply graphToScreen_screenToGraph; exact Hs |].
  split; [apply screenToGraph_graphToScreen; exact Hs |].
  intros rect pd tip Hcv Hpd Hmode Htip. apply mode_Idle in Hmode as [Hpan Hnodrag].
  simpl in Htip. unfold handleMouseMove in Htip.
  rewrite Hcv, Hpan, Hpd in Htip.
  assert (exists gx gy, tooltipNode (hover gx gy pd st) = Some tip) as (gx & gy & Hh).
  { destruct (isDragging st), (dragNode st);
      try (destruct Hnodrag; discriminate); eauto. }
  apply tooltipNode_hover in Hh as [-> ->].
  apply screenToGraph_graphToScreen. exact Hs.
Qed.

Lemma hoverState_tooltipNode :
  tooltipNode (step (MouseMove 350 300) hoverState)
  = Some (NodeTooltip.mk
            (placeNode 800 600 drawsLeftRight 0 (GraphNode.mk "A" 10 "main" None))
            ((800 / 2 + (0.25 - 0.5) * 200) * 1 + 0)
            ((600 / 2 + (0.5 - 0.5) * 200) * 1 + 0)).
Proof.
  simpl. unfold handleMouseMove. rewrite hoverState_model. simpl.
  unfold hover. simpl. rewrite hoverState_nodeHit. reflexivity.
Qed.

Lemma screen_graph_round_trip_witness :
  screenToGraph (transform hoverState)
    ((800 / 2 + (0.25 - 0.5) * 200) * 1 + 0) ((600 / 2 + (0.5 - 0.5) * 200) * 1 + 0)
  = (800 / 2 + (0.25 - 0.5) * 200, 600 / 2 + (0.5 - 0.5) * 200).
Proof.
  refine (proj2 (proj2 (screen_graph_round_trip hoverState 0 0 350 300 _))
            (Rect.mk 0 0 800 600) _ _ eq_refl hoverState_model eq_refl
            hoverState_tooltipNode).
  simpl. lra.
Defined.

(** ** Panning *)

Lemma pan_move (st : State) (rect : Rect.t) (cx cy : R) :
  canvas st = Some rect ->
  isPanning st = true ->
  step (MouseMove cx cy) st
  = setLastMousePos (cx - Rect.left rect, cy - Rect.top rect)
      (setTransform
         (Transform.mk (Transform.scale (transform st))
            (Transform.translateX (transform st)
             + (cx - Rect.left rect - (lastMousePos st).1))
            (Transform.translateY (transform st)
             + (cy - Rect.top rect - (lastMousePos st).2))) st).
Proof. intros Hcv Hpan. simpl. unfold handleMouseMove. rewrite Hcv, Hpan. reflexivity. Qed.

(** X3: while panning, a sequence of pointer moves ending at a cursor
    position shifts the translation by the difference between that
    position and the last recorded pointer position, whatever the path;
    scale and model are unchanged, and the graph point that was under the
    recorded position is now under the cursor. *)
Theorem pan_follows_cursor (st : State) (rect : Rect.t)
    (path : list (R * R)) (cx cy : R) :
  canvas st = Some rect ->
  isPanning st = true ->
  let moves := (fun p => MouseMove p.1 p.2) <$> path in
  let st' := run (moves ++ [MouseMove cx cy]) st in
  let sx := cx - Rect.left rect in
  let sy := cy - Rect.top rect in
  Transform.scale (transform st') = Transform.scale (transform st)
  /\ Transform.translateX (transform st')
     = Transform.translateX (transform st) + (sx - (lastMousePos st).1)
  /\ Transform.translateY (transform st')
     = Transform.translateY (transform st) + (sy - (lastMousePos st).2)
  /\ lastMousePos st' = (sx, sy)
  /\ processedData st' = processedData st
  /\ mode st' = Panning
  /\ screenToGraph (transform st') sx sy
     = screenToGraph (transform st) (lastMousePos st).1 (lastMousePos st).2.
Proof.
  intros Hcv Hpan moves st' sx sy.
  assert (Transform.scale (transform st') = Transform.scale (transform st)
          /\ Transform.translateX (transform st')
             = Transform.translateX (transform st) + (sx - (lastMousePos st).1)
          /\ Transform.translateY (transform st')
             = Transform.translateY (transform st) + (sy - (lastMousePos st).2)
          /\ lastMousePos st' = (sx, sy)
          /\ processedData st' = processedData st
          /\ isPanning st' = true) as (Hs & Hx & Hy & Hl & Hp & Hm).
  { unfold st', moves, run, sx, sy. clear st' moves sx sy.
    revert st Hcv Hpan. induction path as [|[px py] path IH]; intros st Hcv Hpan.
    - simpl. change (handleMouseMove cx cy st) with (step (MouseMove cx cy) st).
      rewrite (pan_move st rect cx cy Hcv Hpan). simpl. repeat split; (reflexivity || assumption || lra).
    - rewrite fmap_cons. simpl app. simpl foldl.
      change (handleMouseMove px py st) with (step (MouseMove px py) st).
      rewrite (pan_move st rect px py Hcv Hpan).
      match goal with |- context [foldl _ ?s _] => set (st1 := s) end.
      destruct (IH st1) as (Hs & Hx & Hy & Hl & Hp & Hm); [exact Hcv | exact Hpan |].
      rewrite Hs, Hx, Hy, Hl, Hp, Hm. unfold st1. simpl. repeat split; (reflexivity || assumption || lra). }
  repeat split; try assumption.
  - apply mode_Panning. exact Hm.
  - unfold screenToGraph. rewrite Hs, Hx, Hy. f_equal; f_equal; lra.
Qed.

Lemma pan_follows_cursor_witness :
  Transform.translateX
    (transform (run [MouseMove 0 0; MouseMove 7 90; MouseMove 410 320] panningState))
  = 0 + (410 - 0 - 800 / 2)
  /\ mode (run [MouseMove 0 0; MouseMove 7 90; MouseMove 410 320] panningState) = Panning.
Proof.
  pose proof (pan_follows_cursor panningState (Rect.mk 0 0 800 600)
                [(0, 0); (7, 90)] 410 320 eq_refl eq_refl)
    as (_ & Hx & _ & _ & _ & Hm & _).
  split; [exact Hx | exact Hm].
Defined.

(** ** The zoom buttons and the wheel *)

(** X4: the zoom buttons change the scale alone.  Zoom in followed by
    zoom out, or zoom out followed by zoom in, gives back the state as long
    as the intermediate scale does not hit a limit; at a limit the button
    saturates, at 10 and at 0.1. *)
Theorem zoom_buttons_round_trip (st : State) :
  scaleInRange st ->
  let s := Transform.scale (transform st) in
  (s * 1.2 <= 10 -> step ClickZoomOut (step ClickZoomIn st) = st)
  /\ (0.1 <= s / 1.2 -> step ClickZoomIn (step ClickZoomOut st) = st)
  /\ (10 <= s * 1.2 -> Transform.scale (transform (step ClickZoomIn st)) = 10)
  /\ (s / 1.2 <= 0.1 -> Transform.scale (transform (step ClickZoomOut st)) = 0.1)
  /\ Transform.translateX (transform (step ClickZoomIn st))
     = Transform.translateX (transform st)
  /\ Transform.translateY (transform (step ClickZoomIn st))
     = Transform.translateY (transform st)
  /\ Transform.translateX (transform (step ClickZoomOut st))
     = Transform.translateX (transform st)
  /\ Transform.translateY (transform (step ClickZoomOut st))
     = Transform.translateY (transform st).
Proof.
  intros Hs s. unfold scaleInRange in Hs.
  destruct st as [g d tn tl dr dn pd [sc tx ty] pan lm cv rnd tni].
  simpl in *. subst s.
  split; [| split; [| split; [| split; [| repeat split; reflexivity]]]].
  - intros H. unfold clickZoomOut, clickZoomIn, setTransform. simpl.
    rewrite (Rmin_left (sc * 1.2) 10) by exact H.
    rewrite Rmax_left by lra. do 2 f_equal. lra.
  - intros H. unfold clickZoomOut, clickZoomIn, setTransform. simpl.
    rewrite (Rmax_left (sc / 1.2) 0.1) by exact H.
    rewrite Rmin_left by lra. do 2 f_equal. lra.
  - intros H. apply Rmin_right. exact H.
  - intros H. apply Rmax_right. exact H.
Qed.

Lemma zoom_buttons_round_trip_witness :
  step ClickZoomOut (step ClickZoomIn (mounted oneNodeGraph (fun _ => 0.5)))
  = mounted oneNodeGraph (fun _ => 0.5).
Proof.
  refine (proj1 (zoom_buttons_round_trip (mounted oneNodeGraph (fun _ => 0.5)) _) _).
  - unfold scaleInRange. simpl. lra.
  - simpl. lra.
Defined.

Lemma canvas_handleWheel (cx cy dy : R) (st : State) :
  canvas (handleWheel cx cy dy st) = canvas st.
Proof. unfold handleWheel. destruct (canvas st) eqn:H; simpl; exact H. Qed.

(** X5: a wheel step in followed by a wheel step out at the same cursor
    position, both accepted, leaves the scale multiplied by 0.99: the
    graph point under the cursor is kept, the transform is not restored. *)
Theorem wheel_in_then_out (st : State) (rect : Rect.t) (cx cy dIn dOut : R) :
  canvas st = Some rect ->
  dIn < 0 -> 0 <= dOut ->
  let t := transform st in
  let mx := cx - Rect.left rect in
  let my := cy - Rect.top rect in
  let st2 := step (Wheel cx cy dOut) (step (Wheel cx cy dIn) st) in
  zoomAccepted 1.1 t ->
  zoomAccepted 0.9 (zoomAt 1.1 mx my t) ->
  Transform.scale (transform st2) = Transform.scale t * 0.99
  /\ screenToGraph (transform st2) mx my = screenToGraph t mx my
  /\ transform st2 <> t.
Proof.
  intros Hcv Hin Hout t mx my st2 Hacc1 Hacc2.
  assert (transform st2 = zoomAt 0.9 mx my (zoomAt 1.1 mx my t)) as Hst2.
  { unfold st2. simpl. unfold handleWheel at 1. rewrite canvas_handleWheel, Hcv.
    unfold handleWheel. rewrite Hcv. simpl.
    destruct (wheelDelta_cases dIn) as [[_ ->]|[? _]]; [| lra].
    destruct (wheelDelta_cases dOut) as [[? _]|[_ ->]]; [lra |].
    reflexivity. }
  rewrite Hst2.
  assert (Transform.scale (zoomAt 0.9 mx my (zoomAt 1.1 mx my t))
          = Transform.scale t * 0.99) as Hscale.
  { rewrite (zoomAt_accepted 0.9) by exact Hacc2.
    rewrite zoomAt_accepted by exact Hacc1. simpl. lra. }
  split; [exact Hscale |]. split.
  - rewrite zoomAt_anchor by exact Hacc2. apply zoomAt_anchor. exact Hacc1.
  - intros Heq. rewrite Heq in Hscale.
    destruct Hacc1 as [Hlo _]. lra.
Qed.

Lemma wheel_in_then_out_witness :
  Transform.scale
    (transform (step (Wheel 5 5 1) (step (Wheel 5 5 (-1)) (mounted oneNodeGraph (fun _ => 0.5)))))
  = 1 * 0.99.
Proof.
  refine (proj1 (wheel_in_then_out (mounted oneNodeGraph (fun _ => 0.5))
                   (Rect.mk 0 0 800 600) 5 5 (-1) 1 eq_refl _ _ _ _)).
  - lra.
  - lra.
  - unfold zoomAccepted. simpl. lra.
  - rewrite zoomAt_accepted by (unfold zoomAccepted; simpl; lra).
    unfold zoomAccepted. simpl. lra.
Defined.

(** ** Keyboard, press and release *)

(** X6: a key press never touches the model, the pinned node, the hover
    state or the dimensions; the keys r and R set the identity transform
    whatever the transform was, as the reset button does, every other key
    leaves the transform alone, and resetting twice is resetting once. *)
Theorem key_press_effects (key : string) (st : State) :
  let st' := step (KeyDown key) st in
  processedData st' = processedData st
  /\ isDragging st' = isDragging st
  /\ dragNode st' = dragNode st
  /\ tooltipNode st' = tooltipNode st
  /\ tooltipLink st' = tooltipLink st
  /\ dimensions st' = dimensions st
  /\ (key = "r" \/ key = "R" ->
      transform st' = identityTransform /\ st' = step ClickReset st)
  /\ (key <> "r" -> key <> "R" -> transform st' = transform st)
  /\ step ClickReset (step ClickReset st) = step ClickReset st.
Proof.
  simpl. unfold handleKeyDown.
  destruct (bool_decide_reflect (key = "r")) as [->|Hr];
    [| destruct (bool_decide_reflect (key = "R")) as [->|HR]]; simpl.
  - repeat split; try reflexivity. intros; congruence.
  - repeat split; try reflexivity. intros; congruence.
  - destruct (bool_decide (key = "Alt") && negb (isPanning st))%bool, (canvas st);
      simpl; repeat split; intros; try reflexivity; tauto.
Qed.

(** X7: on a mounted canvas with a model, a press that is not a panning
    press and lands inside some node pins the first node in array order
    that contains the graph point of the cursor and enters the dragging
    mode, whatever the button is; a press that lands on no node changes
    nothing. *)
Theorem press_pins_first_node (st : State) (rect : Rect.t) (pd : ProcessedGraphData.t)
    (cx cy : R) (buttons : nat) (altKey : bool) :
  canvas st = Some rect ->
  processedData st = Some pd ->
  isPanning st = false ->
  ~ panButtons buttons altKey ->
  let g := screenToGraph (transform st) (cx - Rect.left rect) (cy - Rect.top rect) in
  let st' := step (MouseDown cx cy buttons altKey) st in
  (forall i node,
      ProcessedGraphData.nodes pd !! i = Some node ->
      nodeHit g.1 g.2 node = true ->
      exists k first,
        (k <= i)%nat
        /\ ProcessedGraphData.nodes pd !! k = Some first
        /\ nodeHit g.1 g.2 first = true
        /\ (forall j other, (j < k)%nat ->
              ProcessedGraphData.nodes pd !! j = Some other ->
              nodeHit g.1 g.2 other = false)
        /\ mode st' = DraggingNode k
        /\ processedData st' = Some pd
        /\ transform st' = transform st)
  /\ ((forall i node, ProcessedGraphData.nodes pd !! i = Some node ->
         nodeHit g.1 g.2 node = false) ->
      st' = st).
Proof.
  intros Hcv Hpd Hpan Hnopan g st'.
  assert (st' = match findNodeAt g.1 g.2 0 (ProcessedGraphData.nodes pd) with
                | Some (i, _) => setDragNode (Some i) (setIsDragging true st)
                | None => st
                end) as ->.
  { unfold st'. simpl. unfold handleMouseDown. rewrite Hcv, Hpd.
    destruct (Nat.eqb_spec buttons 4) as [H4|_];
      [exfalso; apply Hnopan; left; exact H4 |].
    destruct (Nat.eqb_spec buttons 1) as [H1|_], altKey; simpl;
      try reflexivity.
    exfalso. apply Hnopan. right. auto. }
  destruct (findNodeAt g.1 g.2 0 (ProcessedGraphData.nodes pd)) as [[k first]|] eqn:Hfind.
  - apply findNodeAt_Some in Hfind as (j & -> & Hj & Hhit & Hmin). simpl.
    split.
    + intros i node Hi Hnode. exists j, first.
      split.
      { destruct (le_lt_dec j i) as [Hle|Hlt]; [exact Hle |].
        exfalso. pose proof (Hmin i node Hlt Hi) as Hf.
        change (nodeHit g.1 g.2 node = true) in Hnode. congruence. }
      repeat split; auto.
      apply mode_DraggingNode. simpl. auto.
    + intros Hnone. exfalso. pose proof (Hnone j first Hj) as Hf.
      change (nodeHit g.1 g.2 first = false) in Hf. congruence.
  - split; [| reflexivity].
    intros i node Hi Hnode. exfalso.
    pose proof (findNodeAt_None _ _ _ _ Hfind i node Hi) as Hf.
    change (nodeHit g.1 g.2 node = true) in Hnode. congruence.
Qed.

Lemma press_pins_first_node_witness :
  mode (step (MouseDown 350 300 1 false) hoverState) = DraggingNode 0.
Proof.
  destruct (proj1 (press_pins_first_node hoverState (Rect.mk 0 0 800 600) _
                     350 300 1 false eq_refl hoverState_model eq_refl
                     ltac:(intros [H|[_ H]]; discriminate))
              0%nat _ eq_refl hoverState_nodeHit)
    as (k & first & Hk & _ & _ & _ & Hmode & _).
  assert (k = 0%nat) as -> by lia. exact Hmode.
Defined.

Lemma step_dragFlagsAgree (e : Event) (st : State) :
  dragFlagsAgree st -> dragFlagsAgree (step e st).
Proof.
  unfold dragFlagsAgree. intros H.
  destruct e as [cx cy|cx cy b alt| |cx cy dy|k|k| | | |c|g| ]; simpl; try exact H.
  - unfold handleMouseMove. destruct (canvas st); [| exact H].
    destruct (isPanning st); [exact H |].
    destruct (isDragging st) eqn:Hd, (dragNode st) eqn:Hn, (processedData st); simpl;
      try (rewrite ?Hd, ?Hn; exact H).
    all: unfold hover; destruct (findNodeAt _ _ _ _) as [[? ?]|];
      [| destruct (findLinkAt _ _ _ _ _)]; simpl; rewrite ?Hd, ?Hn; exact H.
  - unfold handleMouseDown. destruct (canvas st), (processedData st); try exact H.
    destruct (_ || _)%bool; [exact H |].
    destruct (findNodeAt _ _ _ _) as [[? ?]|]; [| exact H].
    simpl. split; eauto.
  - split; [discriminate | intros [? ?]; discriminate].
  - unfold handleWheel. destruct (canvas st); exact H.
  - unfold handleKeyDown.
    destruct (_ || _)%bool, (_ && _)%bool, (canvas st); exact H.
  - unfold handleKeyUp. destruct (bool_decide _); exact H.
  - unfold updateDimensions. destruct c; [| exact H].
    unfold runGraphEffect. destruct (processGraphData _ _ _); exact H.
  - unfold receiveGraphData, runGraphEffect.
    destruct (processGraphData _ _ _); exact H.
  - unfold animationFrame. destruct (processedData st); [| exact H].
    destruct (Nat.eqb _ _); exact H.
Qed.

(** X8: the two dragging flags move together: if [isDragging] is set
    exactly when [dragNode] is not null, this remains so after any
    sequence of events; and a button release returns to the idle mode from
    every mode. *)
Theorem drag_flags_agree (es : list Event) (st : State) :
  dragFlagsAgree st ->
  dragFlagsAgree (run es st) /\ mode (step MouseUp (run es st)) = Idle.
Proof.
  intros H. split; [| reflexivity].
  unfold run. revert st H. induction es as [|e es IH]; intros st H; simpl; [exact H |].
  apply IH, step_dragFlagsAgree, H.
Qed.

Lemma drag_flags_agree_witness :
  dragFlagsAgree (run [MouseDown 350 300 1 false; MouseMove 1 2; KeyDown "Alt"] hoverState).
Proof.
  refine (proj1 (drag_flags_agree _ hoverState _)).
  split; [discriminate | intros [? ?]; discriminate].
Defined.

(** ** What frames and events keep of the model *)

Lemma fmap_alter_preserved {A B : Type} (p : A -> B) (f : A -> A) (i : nat) (l : list A) :
  (forall a, p (f a) = p a) -> p <$> alter f i l = p <$> l.
Proof.
  intros Hf. apply list_eq. intros j. rewrite !list_lookup_fmap.
  destruct (decide (i = j)) as [<-|Hne].
  - rewrite list_lookup_alter_eq. destruct (l !! i); simpl; [| reflexivity].
    rewrite Hf. reflexivity.
  - rewrite list_lookup_alter_ne by exact Hne. reflexivity.
Qed.

Lemma staticPart_repulsionStep (i j : nat) (nodes : list ProcessedNode.t) :
  staticPart <$> repulsionStep i j nodes = staticPart <$> nodes.
Proof.
  unfold repulsionStep. destruct (Nat.eqb i j); [reflexivity |].
  destruct (nodes !! j); [| reflexivity].
  apply fmap_alter_preserved. reflexivity.
Qed.

Lemma staticPart_forceStep (w h : R) (drag : option nat) (i : nat)
    (nodes : list ProcessedNode.t) :
  staticPart <$> forceStep w h drag i nodes = staticPart <$> nodes.
Proof.
  unfold forceStep. destruct (isDragNode drag i); [reflexivity |].
  apply (for_range_preserves (fun l => staticPart <$> l = staticPart <$> nodes)).
  - intros j l Hl. rewrite staticPart_repulsionStep. exact Hl.
  - apply fmap_alter_preserved. reflexivity.
Qed.

Lemma staticPart_linkStep (drag : option nat) (link : ProcessedLink.t)
    (nodes : list ProcessedNode.t) :
  staticPart <$> linkStep drag link nodes = staticPart <$> nodes.
Proof.
  unfold linkStep. destruct (_ || _)%bool; [reflexivity |].
  destruct (nodes !! _); [| reflexivity]. destruct (nodes !! _); [| reflexivity].
  destruct (isDragNode drag _), (isDragNode drag _);
    rewrite ?fmap_alter_preserved by reflexivity; reflexivity.
Qed.

Lemma staticPart_moveStep (w h : R) (drag : option nat) (i : nat)
    (nodes : list ProcessedNode.t) :
  staticPart <$> moveStep w h drag i nodes = staticPart <$> nodes.
Proof.
  unfold moveStep. destruct (isDragNode drag i); [reflexivity |].
  apply fmap_alter_preserved. reflexivity.
Qed.

Lemma staticPart_simulateNodes (d : Dimensions.t) (drag : option nat)
    (links : list ProcessedLink.t) (nodes : list ProcessedNode.t) :
  staticPart <$> simulateNodes d drag links nodes = staticPart <$> nodes.
Proof.
  unfold simulateNodes.
  apply (for_range_preserves (fun l => staticPart <$> l = staticPart <$> nodes));
    [intros; rewrite staticPart_moveStep; assumption |].
  apply (for_of_preserves (fun l => staticPart <$> l = staticPart <$> nodes));
    [intros; rewrite staticPart_linkStep; assumption |].
  apply (for_range_preserves (fun l => staticPart <$> l = staticPart <$> nodes));
    [intros; rewrite staticPart_forceStep; assumption | reflexivity].
Qed.

(** Assignments to the node objects and the node tooltip. *)
Lemma assignNodes_tooltipLive (pd pd' : ProcessedGraphData.t) (st : State) :
  processedData st = Some pd ->
  length (ProcessedGraphData.nodes pd') = length (ProcessedGraphData.nodes pd) ->
  tooltipLive st -> tooltipLive (assignNodes pd' st).
Proof.
  intros Hpd Hlen Hlive i Hi. simpl in Hi.
  destruct (Hlive i Hi) as (pd0 & tip & Hpd0 & Htip & Hnode).
  assert (pd0 = pd) as -> by congruence.
  destruct (lookup_lt_is_Some_2 (ProcessedGraphData.nodes pd') i) as [node' Hnode'].
  { rewrite Hlen. eapply lookup_lt_Some. exact Hnode. }
  exists pd', (NodeTooltip.mk node' (NodeTooltip.x tip) (NodeTooltip.y tip)).
  split; [reflexivity |]. split; [| exact Hnode'].
  unfold assignNodes, refreshTooltipNode, liveTooltipNode. simpl.
  rewrite Hi, Htip, Hnode'. reflexivity.
Qed.

Lemma assignNodes_tooltipStatic (pd pd' : ProcessedGraphData.t) (st : State) :
  processedData st = Some pd ->
  staticPart <$> ProcessedGraphData.nodes pd' = staticPart <$> ProcessedGraphData.nodes pd ->
  tooltipLive st ->
  tooltipStatic <$> tooltipNode (assignNodes pd' st) = tooltipStatic <$> tooltipNode st.
Proof.
  intros Hpd Hstatic Hlive.
  unfold assignNodes, refreshTooltipNode, liveTooltipNode. simpl.
  destruct (tooltipNodeIndex st) as [i|] eqn:Hi; [| reflexivity].
  destruct (Hlive i Hi) as (pd0 & tip & Hpd0 & Htip & Hnode).
  assert (pd0 = pd) as -> by congruence.
  rewrite Htip.
  destruct (ProcessedGraphData.nodes pd' !! i) as [node'|] eqn:Hnode'; [| reflexivity].
  simpl. unfold tooltipStatic. simpl. do 3 f_equal.
  assert ((staticPart <$> ProcessedGraphData.nodes pd') !! i
          = (staticPart <$> ProcessedGraphData.nodes pd) !! i) as Hi' by (rewrite Hstatic; reflexivity).
  rewrite !list_lookup_fmap, Hnode', Hnode in Hi'. simpl in Hi'. congruence.
Qed.

Lemma assignNodes_tooltipNode_stale (pd' : ProcessedGraphData.t) (st : State) :
  tooltipNodeIndex st = None -> tooltipNode (assignNodes pd' st) = tooltipNode st.
Proof.
  intros Hi. unfold assignNodes, refreshTooltipNode, liveTooltipNode. simpl.
  rewrite Hi. reflexivity.
Qed.

Lemma animationFrame_static (st : State) (pd : ProcessedGraphData.t) :
  processedData st = Some pd ->
  tooltipLive st ->
  exists pd',
    processedData (animationFrame st) = Some pd'
    /\ ProcessedGraphData.links pd' = ProcessedGraphData.links pd
    /\ staticPart <$> ProcessedGraphData.nodes pd'
       = staticPart <$> ProcessedGraphData.nodes pd
    /\ besidesModel (animationFrame st) = besidesModel st
    /\ tooltipStatic <$> tooltipNode (animationFrame st) = tooltipStatic <$> tooltipNode st
    /\ tooltipLive (animationFrame st)
    /\ (tooltipNodeIndex st = None -> tooltipNode (animationFrame st) = tooltipNode st).
Proof.
  intros Hpd Hlive. unfold animationFrame. rewrite Hpd.
  destruct (Nat.eqb _ _).
  - exists pd. repeat split; try assumption; reflexivity.
  - exists (simulateForces (dimensions st) (dragNode st) pd).
    split; [reflexivity |]. split; [reflexivity |].
    split; [apply staticPart_simulateNodes |].
    split; [reflexivity |].
    split; [eapply assignNodes_tooltipStatic;
            [exact Hpd | apply staticPart_simulateNodes | exact Hlive] |].
    split; [eapply assignNodes_tooltipLive;
            [exact Hpd | apply length_simulateNodes | exact Hlive] |].
    apply assignNodes_tooltipNode_stale.
Qed.

Lemma frames_static (n : nat) (st : State) (pd : ProcessedGraphData.t) :
  processedData st = Some pd ->
  tooltipLive st ->
  exists pd',
    processedData (frames n st) = Some pd'
    /\ ProcessedGraphData.links pd' = ProcessedGraphData.links pd
    /\ staticPart <$> ProcessedGraphData.nodes pd'
       = staticPart <$> ProcessedGraphData.nodes pd
    /\ length (ProcessedGraphData.nodes pd') = length (ProcessedGraphData.nodes pd)
    /\ besidesModel (frames n st) = besidesModel st
    /\ tooltipStatic <$> tooltipNode (frames n st) = tooltipStatic <$> tooltipNode st
    /\ tooltipLive (frames n st)
    /\ (tooltipNodeIndex st = None -> tooltipNode (frames n st) = tooltipNode st).
Proof.
  intros Hpd Hlive.
  assert (exists pd',
            processedData (frames n st) = Some pd'
            /\ ProcessedGraphData.links pd' = ProcessedGraphData.links pd
            /\ staticPart <$> ProcessedGraphData.nodes pd'
               = staticPart <$> ProcessedGraphData.nodes pd
            /\ besidesModel (frames n st) = besidesModel st
            /\ tooltipStatic <$> tooltipNode (frames n st) = tooltipStatic <$> tooltipNode st
            /\ tooltipLive (frames n st)
            /\ (tooltipNodeIndex st = None -> tooltipNode (frames n st) = tooltipNode st))
    as (pd' & H1 & H2 & H3 & H4 & H5 & H6 & H7).
  { induction n as [|n (pd1 & Hpd1 & Hl & Hs & Hb & Ht & Hlv & Hst)].
    - exists pd. repeat split; try assumption; reflexivity.
    - rewrite frames_S.
      destruct (animationFrame_static (frames n st) pd1 Hpd1 Hlv)
        as (pd2 & Hpd2 & Hl2 & Hs2 & Hb2 & Ht2 & Hlv2 & Hst2).
      exists pd2. repeat split; try congruence; try assumption.
      intros Hi. rewrite Hst2, Hst; [reflexivity | exact Hi |].
      apply blank_fields in Hb. destruct Hb as (_ & _ & _ & _ & _ & _ & _ & _ & _ & _ & Hidx).
      congruence. }
  exists pd'. repeat split; try assumption.
  rewrite <- (length_fmap staticPart), H3. apply length_fmap.
Qed.


Lemma hover_tooltipLive (gx gy : R) (pd : ProcessedGraphData.t) (st : State) :
  processedData st = Some pd -> tooltipLive (hover gx gy pd st).
Proof.
  intros Hpd. unfold hover.
  destruct (findNodeAt gx gy 0 (ProcessedGraphData.nodes pd)) as [[k node]|] eqn:Hfind.
  - apply findNodeAt_Some in Hfind as (j & -> & Hj & _).
    intros i Hi. simpl in Hi. injection Hi as <-.
    eexists pd, _. split; [exact Hpd |]. split; [reflexivity | exact Hj].
  - destruct (findLinkAt _ _ _ _ _); intros i Hi; discriminate.
Qed.

(** X9: any number of frames changes nothing but positions and
    velocities.  For a model whose node tooltip, if it holds one of the
    model's nodes, shows that node: after the frames the links, the number
    and order of the nodes and their id, size, role, description and
    colour are as before, and so is every field of the component state
    besides the model and the node tooltip; the node tooltip keeps its
    screen point and the static part of its node, still shows the node at
    its index with the values that node has now, and is not changed at all
    if it holds no node of the model. *)
Theorem frames_keep_static_data (n : nat) (st : State) (pd : ProcessedGraphData.t) :
  processedData st = Some pd ->
  tooltipLive st ->
  exists pd',
    processedData (frames n st) = Some pd'
    /\ ProcessedGraphData.links pd' = ProcessedGraphData.links pd
    /\ staticPart <$> ProcessedGraphData.nodes pd'
       = staticPart <$> ProcessedGraphData.nodes pd
    /\ length (ProcessedGraphData.nodes pd') = length (ProcessedGraphData.nodes pd)
    /\ besidesModel (frames n st) = besidesModel st
    /\ tooltipStatic <$> tooltipNode (frames n st) = tooltipStatic <$> tooltipNode st
    /\ tooltipLive (frames n st)
    /\ (tooltipNodeIndex st = None -> tooltipNode (frames n st) = tooltipNode st).
Proof. apply frames_static. Qed.

Lemma frames_keep_static_data_witness :
  exists pd',
    processedData (frames 5 (step (MouseMove 350 300) hoverState)) = Some pd'
    /\ ProcessedNode.id <$> ProcessedGraphData.nodes pd' = ["A"; "B"]
    /\ tooltipLive (frames 5 (step (MouseMove 350 300) hoverState)).
Proof.
  destruct (frames_keep_static_data 5 (step (MouseMove 350 300) hoverState) _
              (eq_trans (processedData_hover _ _ _ hoverState) hoverState_model)
              (hover_tooltipLive _ _ _ hoverState hoverState_model))
    as (pd' & Hpd' & _ & Hs & _ & _ & _ & Hlive & _).
  exists pd'. split; [exact Hpd' |]. split; [| exact Hlive].
  change ProcessedNode.id with ((fun p : string * R * string * option string * string =>
                                   p.1.1.1.1) ∘ staticPart).
  rewrite list_fmap_compose, Hs. reflexivity.
Defined.

Lemma indicesInRange_length (l1 l2 : list ProcessedNode.t) (links : list ProcessedLink.t) :
  length l1 = length l2 ->
  Forall (indicesInRange l1) links -> Forall (indicesInRange l2) links.
Proof.
  intros Hlen HF. eapply Forall_impl; [exact HF |].
  intros pl. unfold indicesInRange. rewrite Hlen. tauto.
Qed.

Lemma buildLinks_inRange (nodes : list ProcessedNode.t) (rawLinks : list GraphLink.t) :
  Forall (indicesInRange nodes) (buildLinks nodes rawLinks).
Proof.
  pose proof (buildLinks_resolved nodes rawLinks) as Hres.
  induction Hres as [|raw pl ? ? H ? IH]; constructor;
    [eapply resolves_inRange; exact H | exact IH].
Qed.

Lemma runGraphEffect_linksInRange (st : State) :
  linksInRange st -> linksInRange (runGraphEffect st).
Proof.
  unfold linksInRange, runGraphEffect, processGraphData. intros H.
  destruct (graphData st) as [g|]; [| exact H].
  destruct (GraphData.nodes g), (GraphData.links g); try exact H.
  simpl. apply buildLinks_inRange.
Qed.

Lemma step_linksInRange (e : Event) (st : State) :
  linksInRange st -> linksInRange (step e st).
Proof.
  intros H.
  destruct e as [cx cy|cx cy b alt| |cx cy dy|k|k| | | |c|g| ]; simpl; try exact H.
  - unfold handleMouseMove. destruct (canvas st); [| exact H].
    destruct (isPanning st); [exact H |].
    unfold linksInRange in *.
    destruct (isDragging st), (dragNode st), (processedData st) as [pd|] eqn:Hpd; simpl;
      rewrite ?processedData_hover, ?Hpd; try exact H.
    eapply indicesInRange_length; [| exact H]. symmetry. apply length_alter.
  - unfold handleMouseDown. destruct (canvas st), (processedData st) eqn:Hpd; try exact H.
    destruct (_ || _)%bool; [exact H |].
    destruct (findNodeAt _ _ _ _) as [[? ?]|]; exact H.
  - unfold handleWheel. destruct (canvas st); exact H.
  - unfold handleKeyDown.
    destruct (_ || _)%bool, (_ && _)%bool, (canvas st); exact H.
  - unfold handleKeyUp. destruct (bool_decide _); exact H.
  - unfold updateDimensions. destruct c; [| exact H].
    apply runGraphEffect_linksInRange. exact H.
  - unfold receiveGraphData. apply runGraphEffect_linksInRange. exact H.
  - unfold animationFrame, linksInRange in *.
    destruct (processedData st) as [pd|] eqn:Hpd; [| rewrite Hpd; exact I].
    destruct (Nat.eqb _ _); [rewrite Hpd; exact H |]. simpl.
    eapply indicesInRange_length; [| exact H]. symmetry. apply length_simulateNodes.
Qed.

(** X10: in every state reached from a freshly mounted component by any
    sequence of events, each link of the model points at two existing
    nodes. *)
Theorem links_stay_in_range (es : list Event) (g : option GraphData.t)
    (cv : option Rect.t) (rnd : nat -> R) :
  linksInRange (run es (initialState g cv rnd))
  /\ linksInRange (run es (runGraphEffect (initialState g cv rnd))).
Proof.
  assert (forall st, linksInRange st -> linksInRange (run es st)) as Hrun.
  { unfold run. induction es as [|e es IH]; intros st H; simpl; [exact H |].
    apply IH, step_linksInRange, H. }
  split; apply Hrun; [exact I |].
  apply runGraphEffect_linksInRange. exact I.
Qed.

(** ** Forces *)

Lemma sumR_cons (a : R) (l : list R) : sumR (a :: l) = a + sumR l.
Proof. reflexivity. Qed.

Lemma sumR_alter (f : R -> R) (i : nat) (l : list R) (v : R) :
  l !! i = Some v -> sumR (alter f i l) = sumR l + (f v - v).
Proof.
  revert i. induction l as [|a l IH]; intros i Hi.
  - rewrite lookup_nil in Hi. discriminate.
  - destruct i as [|i].
    + injection Hi as ->. change (alter f 0%nat (v :: l)) with (f v :: l).
      rewrite !sumR_cons. lra.
    + change (alter f (S i) (a :: l)) with (a :: alter f i l).
      rewrite !sumR_cons, (IH i Hi). lra.
Qed.

Lemma totalVelocity_addVelocity (a b : R) (i : nat) (nodes : list ProcessedNode.t) :
  (i < length nodes)%nat ->
  totalVelocity (alter (addVelocity a b) i nodes)
  = ((totalVelocity nodes).1 + a, (totalVelocity nodes).2 + b).
Proof.
  intros Hi. destruct (lookup_lt_is_Some_2 nodes i Hi) as [node Hnode].
  unfold totalVelocity. simpl.
  assert (ProcessedNode.vx <$> alter (addVelocity a b) i nodes
          = alter (fun v => v + a) i (ProcessedNode.vx <$> nodes)) as ->
    by (apply list_fmap_alter, Forall_forall; reflexivity).
  assert (ProcessedNode.vy <$> alter (addVelocity a b) i nodes
          = alter (fun v => v + b) i (ProcessedNode.vy <$> nodes)) as ->
    by (apply list_fmap_alter, Forall_forall; reflexivity).
  rewrite (sumR_alter _ i _ (ProcessedNode.vx node))
    by (rewrite list_lookup_fmap, Hnode; reflexivity).
  rewrite (sumR_alter _ i _ (ProcessedNode.vy node))
    by (rewrite list_lookup_fmap, Hnode; reflexivity).
  f_equal; lra.
Qed.

Lemma position_fmap_addVelocity (a b : R) (i : nat) (nodes : list ProcessedNode.t) :
  position <$> alter (addVelocity a b) i nodes = position <$> nodes.
Proof. apply fmap_alter_preserved. reflexivity. Qed.

Lemma linkStep_free (link : ProcessedLink.t) (nodes : list ProcessedNode.t) :
  totalVelocity (linkStep None link nodes) = totalVelocity nodes
  /\ position <$> linkStep None link nodes = position <$> nodes.
Proof.
  unfold linkStep.
  destruct (Nat.leb_spec (length nodes) (ProcessedLink.source link)) as [|Hs];
    [split; reflexivity |].
  destruct (Nat.leb_spec (length nodes) (ProcessedLink.target link)) as [|Ht];
    [split; reflexivity |].
  simpl.
  destruct (nodes !! ProcessedLink.source link) as [source|]; [| split; reflexivity].
  destruct (nodes !! ProcessedLink.target link) as [target|]; [| split; reflexivity].
  split.
  - rewrite totalVelocity_addVelocity by (rewrite length_alter; exact Ht).
    rewrite totalVelocity_addVelocity by exact Hs. simpl.
    unfold totalVelocity. f_equal; lra.
  - rewrite !position_fmap_addVelocity. reflexivity.
Qed.

(** X11: with no node pinned, the spring loop of a frame gives every
    link's two endpoints opposite velocity changes: the sum of all node
    velocities after the loop is the sum before it, and no position is
    touched. *)
Theorem springs_conserve_momentum (links : list ProcessedLink.t)
    (nodes : list ProcessedNode.t) :
  totalVelocity (for_of links (linkStep None) nodes) = totalVelocity nodes
  /\ position <$> for_of links (linkStep None) nodes = position <$> nodes.
Proof.
  apply (for_of_preserves
           (fun l => totalVelocity l = totalVelocity nodes
                     /\ position <$> l = position <$> nodes)).
  - intros link l [Hv Hp]. destruct (linkStep_free link l) as [Hv' Hp'].
    split; congruence.
  - split; reflexivity.
Qed.

(** X12: repulsion is mutual: what the first loop adds to a node because
    of another node is the opposite of what it adds to that other node
    because of the first, at every distance, zero included. *)
Theorem repulsion_is_mutual (a b : ProcessedNode.t) :
  repulsionForce a b
  = (- (repulsionForce b a).1, - (repulsionForce b a).2).
Proof.
  unfold repulsionForce. simpl.
  replace ((ProcessedNode.x b - ProcessedNode.x a) * (ProcessedNode.x b - ProcessedNode.x a)
           + (ProcessedNode.y b - ProcessedNode.y a) * (ProcessedNode.y b - ProcessedNode.y a))
    with ((ProcessedNode.x a - ProcessedNode.x b) * (ProcessedNode.x a - ProcessedNode.x b)
          + (ProcessedNode.y a - ProcessedNode.y b) * (ProcessedNode.y a - ProcessedNode.y b))
    by ring.
  f_equal; unfold Rdiv; ring.
Qed.

Lemma springForce_dist (source target : ProcessedNode.t) :
  nodeDistance source target * nodeDistance source target
  = (ProcessedNode.x target - ProcessedNode.x source)
    * (ProcessedNode.x target - ProcessedNode.x source)
    + (ProcessedNode.y target - ProcessedNode.y source)
      * (ProcessedNode.y target - ProcessedNode.y source).
Proof.
  unfold nodeDistance. apply sqrt_sqrt.
  apply Rplus_le_le_0_compat; apply Rle_0_sqr.
Qed.

(** X13: the spring of a link has rest length 100 and a stiffness capped
    at weight 10.  For endpoints at distance [d]: at [d = 100] and at
    [d = 0] it adds nothing; otherwise the component along the direction
    from source to target of what it adds to the source is
    [(d - 100) * 0.03 * min(value, 10) * d], so that a positive weight
    pulls the endpoints together beyond 100 and pushes them apart below;
    weights above 10 act as 10. *)
Theorem spring_rest_length (source target : ProcessedNode.t) (value : R) :
  let dx := ProcessedNode.x target - ProcessedNode.x source in
  let dy := ProcessedNode.y target - ProcessedNode.y source in
  let d := nodeDistance source target in
  let f := springForce source target value in
  (d = 100 -> f = (0, 0))
  /\ (d = 0 -> f = (0, 0))
  /\ (d <> 0 -> f.1 * dx + f.2 * dy = (d - 100) * 0.03 * Rmin value 10 * d)
  /\ (10 <= value -> f = springForce source target 10).
Proof.
  intros dx dy d f.
  pose proof (springForce_dist source target) as Hsq. fold dx dy d in Hsq.
  unfold f, springForce. fold dx dy. change (sqrt (dx * dx + dy * dy)) with d.
  split; [| split; [| split]].
  - intros Hd. rewrite num_or_nonzero by lra. rewrite Hd. f_equal; lra.
  - intros Hd. rewrite Hd, num_or_zero. rewrite Hd in Hsq.
    assert (dx * dx + dy * dy = 0) as Hz by lra.
    apply sum_squares_zero in Hz as [-> ->]. f_equal; lra.
  - intros Hd. rewrite num_or_nonzero by exact Hd. simpl.
    transitivity ((d - 100) * 0.03 * Rmin value 10 * ((dx * dx + dy * dy) / d));
      [field; exact Hd |].
    rewrite <- Hsq. field. exact Hd.
  - intros Hv. rewrite Rmin_right by exact Hv. rewrite Rmin_left by lra. reflexivity.
Qed.

Lemma spring_rest_length_witness :
  springForce (nodeAt "A" 100 100) (nodeAt "B" 200 100) 5 = (0, 0).
Proof.
  refine (proj1 (spring_rest_length (nodeAt "A" 100 100) (nodeAt "B" 200 100) 5) _).
  unfold nodeDistance. simpl.
  replace ((200 - 100) * (200 - 100) + (100 - 100) * (100 - 100)) with (100 * 100) by lra.
  apply sqrt_square. lra.
Defined.

(** ** Building the model *)

(** X14: if every draw of [Math.random()] lies in [0, 1), each node of a
    freshly built model is within 100 of the viewport centre on both axes
    and at rest. *)
Theorem initial_jitter_bounded (g : option GraphData.t) (d : Dimensions.t)
    (rnd : nat -> R) (pd : ProcessedGraphData.t) (i : nat) (node : ProcessedNode.t) :
  (forall k, 0 <= rnd k < 1) ->
  processGraphData g d rnd = Some pd ->
  ProcessedGraphData.nodes pd !! i = Some node ->
  Dimensions.width d / 2 - 100 <= ProcessedNode.x node < Dimensions.width d / 2 + 100
  /\ Dimensions.height d / 2 - 100 <= ProcessedNode.y node < Dimensions.height d / 2 + 100
  /\ ProcessedNode.vx node = 0
  /\ ProcessedNode.vy node = 0.
Proof.
  intros Hrnd Hpd Hi. unfold processGraphData in Hpd.
  destruct g as [data|]; [| discriminate].
  destruct (GraphData.nodes data) as [rawNodes|]; [| discriminate].
  destruct (GraphData.links data); [| discriminate].
  injection Hpd as <-. simpl in Hi. unfold buildNodes in Hi.
  rewrite list_lookup_imap in Hi.
  destruct (rawNodes !! i) as [raw|]; [| discriminate].
  injection Hi as <-. simpl.
  repeat split; try reflexivity;
    match goal with |- context [rnd ?k] => pose proof (Hrnd k) end; lra.
Qed.

Lemma initial_jitter_bounded_witness :
  exists node,
    nodePosition (mounted oneNodeGraph (fun _ => 0.5)) 0 = Some (position node)
    /\ 800 / 2 - 100 <= ProcessedNode.x node < 800 / 2 + 100.
Proof.
  eexists. split; [reflexivity |].
  refine (proj1 (initial_jitter_bounded oneNodeGraph (Dimensions.mk 800 600)
                   (fun _ => 0.5) _ 0 _ _ eq_refl eq_refl)).
  intros k. lra.
Defined.

Lemma setNodeIndices_keeps_or_later (nodes : list ProcessedNode.t) (k : nat)
    (m : gmap string nat) (s : string) (i0 : nat) :
  m !! s = Some i0 ->
  exists i, setNodeIndices nodes k m !! s = Some i /\ (i = i0 \/ (k <= i)%nat).
Proof.
  revert k m i0. induction nodes as [|node rest IH]; intros k m i0 Hm; simpl.
  - eauto.
  - destruct (decide (ProcessedNode.id node = s)) as [<-|Hne].
    + destruct (IH (S k) (<[ProcessedNode.id node := k]> m) k) as (i & Hi & Hor);
        [apply lookup_insert_eq |].
      exists i. split; [exact Hi | right; lia].
    + destruct (IH (S k) (<[ProcessedNode.id node := k]> m) i0) as (i & Hi & Hor);
        [rewrite lookup_insert_ne by exact Hne; exact Hm |].
      exists i. split; [exact Hi |]. destruct Hor; [auto | right; lia].
Qed.

Lemma setNodeIndices_last (nodes : list ProcessedNode.t) (k : nat)
    (m : gmap string nat) (j : nat) (node : ProcessedNode.t) :
  nodes !! j = Some node ->
  exists i,
    setNodeIndices nodes k m !! ProcessedNode.id node = Some i /\ (k + j <= i)%nat.
Proof.
  revert k m j. induction nodes as [|first rest IH]; intros k m j Hj.
  - rewrite lookup_nil in Hj. discriminate.
  - destruct j as [|j]; simpl in *.
    + injection Hj as ->.
      destruct (setNodeIndices_keeps_or_later rest (S k)
                  (<[ProcessedNode.id node := k]> m) (ProcessedNode.id node) k)
        as (i & Hi & Hor); [apply lookup_insert_eq |].
      exists i. split; [exact Hi | lia].
    + destruct (IH (S k) (<[ProcessedNode.id first := k]> m) j Hj) as (i & Hi & Hle).
      exists i. split; [exact Hi | lia].
Qed.

(** X15: when several nodes carry the same id, a link naming that id is
    resolved to the last of them: no node after the resolved source, or
    target, index has the id of the source, or target. *)
Theorem duplicate_ids_last_wins (nodes : list ProcessedNode.t) (link : GraphLink.t)
    (pl : ProcessedLink.t) :
  resolveLink (setNodeIndices nodes 0 ∅) link = Some pl ->
  resolves nodes link pl
  /\ (forall j node, nodes !! j = Some node ->
        ProcessedNode.id node = GraphLink.source link ->
        (j <= ProcessedLink.source pl)%nat)
  /\ (forall j node, nodes !! j = Some node ->
        ProcessedNode.id node = GraphLink.target link ->
        (j <= ProcessedLink.target pl)%nat).
Proof.
  intros Hr. split; [apply resolveLink_Some; exact Hr |].
  unfold resolveLink in Hr.
  destruct (setNodeIndices nodes 0 ∅ !! GraphLink.source link) as [s|] eqn:Hs; [| discriminate].
  destruct (setNodeIndices nodes 0 ∅ !! GraphLink.target link) as [t|] eqn:Ht; [| discriminate].
  injection Hr as <-. simpl. split.
  - intros j node Hj Hid.
    destruct (setNodeIndices_last nodes 0 ∅ j node Hj) as (i & Hi & Hle).
    rewrite Hid, Hs in Hi. injection Hi as ->. lia.
  - intros j node Hj Hid.
    destruct (setNodeIndices_last nodes 0 ∅ j node Hj) as (i & Hi & Hle).
    rewrite Hid, Ht in Hi. injection Hi as ->. lia.
Qed.

Lemma duplicate_ids_last_wins_witness :
  ProcessedLink.source <$>
    resolveLink
      (setNodeIndices [nodeAt "A" 1 1; nodeAt "B" 2 2; nodeAt "A" 3 3] 0 ∅)
      (GraphLink.mk "A" "B" None None)
  = Some 2%nat.
Proof.
  destruct (resolveLink
              (setNodeIndices [nodeAt "A" 1 1; nodeAt "B" 2 2; nodeAt "A" 3 3] 0 ∅)
              (GraphLink.mk "A" "B" None None)) as [pl|] eqn:Hr; [| discriminate Hr].
  destruct (duplicate_ids_last_wins _ _ _ Hr) as (Hres & Hsrc & _).
  pose proof (Hsrc 2%nat _ eq_refl eq_refl) as Hge.
  destruct Hres as ((s & Hs & _) & _). apply lookup_lt_Some in Hs. simpl in *.
  f_equal. lia.
Defined.

(** X16: new graph data, or a resize, on data without a node list or
    without a link list builds nothing: the previous model stays, with its
    positions, and no draw is consumed; on complete data the model is the
    one built from the data alone, whatever the previous model was. *)
Theorem incomplete_data_keeps_model (g : option GraphData.t) (rect : Rect.t) (st : State) :
  (graphIncomplete g -> step (NewGraphData g) st = setGraphData g st)
  /\ (graphIncomplete (graphData st) ->
      step (Resize (Some rect)) st
      = setDimensions (Dimensions.mk (Rect.width rect) (Rmax 500 (Rect.height rect))) st)
  /\ (~ graphIncomplete g ->
      processedData (step (NewGraphData g) st)
      = processGraphData g (dimensions st) (random st)
      /\ is_Some (processedData (step (NewGraphData g) st))).
Proof.
  simpl. unfold receiveGraphData, updateDimensions, runGraphEffect, processGraphData.
  split; [| split].
  - destruct g as [data|]; simpl; [| reflexivity].
    intros [-> | H]; [reflexivity |]. rewrite H.
    destruct (GraphData.nodes data); reflexivity.
  - simpl. destruct (graphData st) as [data|]; simpl; [| reflexivity].
    intros [-> | H]; [reflexivity |]. rewrite H.
    destruct (GraphData.nodes data); reflexivity.
  - destruct g as [data|]; simpl; [| intros H; exfalso; apply H; exact I].
    destruct (GraphData.nodes data), (GraphData.links data); simpl;
      try (intros H; exfalso; apply H; auto; fail).
    intros _. split; [reflexivity | eexists; reflexivity].
Qed.

Lemma incomplete_data_keeps_model_witness :
  processedData
    (step (NewGraphData (Some (GraphData.mk None (Some [])))) hoverState)
  = processedData hoverState.
Proof.
  rewrite (proj1 (incomplete_data_keeps_model
                    (Some (GraphData.mk None (Some []))) (Rect.mk 0 0 0 0) hoverState)
             (or_introl eq_refl)).
  reflexivity.
Defined.

(** ** Hit-testing links *)

(** X17: the distance used for link hover is the distance from the point
    to the segment between the two endpoints: it is the distance to some
    point of the segment and not more than the distance to any point of
    the segment; for coinciding endpoints it is the distance to them. *)
Theorem segmentDistance_is_least (gx gy : R) (source target : ProcessedNode.t) :
  (exists t0, 0 <= t0 <= 1
     /\ segmentDistance gx gy source target
        = sqrt (squaredDistanceAt gx gy source target t0))
  /\ (forall t, 0 <= t <= 1 ->
        segmentDistance gx gy source target
        <= sqrt (squaredDistanceAt gx gy source target t)).
Proof.
  unfold segmentDistance, squaredDistanceAt.
  generalize (ProcessedNode.x source) (ProcessedNode.y source)
             (ProcessedNode.x target) (ProcessedNode.y target).
  intros sx sy tx ty. cbv zeta.
  set (C := tx - sx). set (D := ty - sy).
  set (A := gx - sx). set (B := gy - sy).
  set (L := C * C + D * D). set (dot := A * C + B * D).
  assert (0 <= L) as HL by (unfold L; nra).
  destruct (Req_dec_T L 0) as [Hz|Hnz].
  - assert (C = 0 /\ D = 0) as [HC HD] by (unfold L in Hz; split; nra).
    destruct (Rlt_dec (-1) 0) as [_|Hno]; [| lra].
    split.
    + exists 0. split; [lra |]. f_equal. rewrite HC, HD. ring.
    + intros t Ht. apply sqrt_le_1_alt. rewrite HC, HD. right. ring.
  - set (p := dot / L).
    assert (p * L = dot) as Hp by (unfold p; field; exact Hnz).
    assert (forall t, (gx - (sx + t * C)) * (gx - (sx + t * C))
                      + (gy - (sy + t * D)) * (gy - (sy + t * D))
                      = A * A + B * B + L * (t * (t - 2 * p))) as Hquad.
    { intros t. replace (L * (t * (t - 2 * p))) with (t * t * L - 2 * t * (p * L)) by ring.
      rewrite Hp. unfold L, dot, A, B. ring. }
    assert ((gx - tx) * (gx - tx) + (gy - ty) * (gy - ty)
            = A * A + B * B + L * (1 * (1 - 2 * p))) as Hend
      by (rewrite <- (Hquad 1); unfold C, D; ring).
    assert ((gx - sx) * (gx - sx) + (gy - sy) * (gy - sy) = A * A + B * B) as Hstart
      by reflexivity.
    destruct (Rlt_dec p 0) as [Hneg|Hnn]; [| destruct (Rgt_dec p 1) as [Hbig|Hsm]].
    + split.
      * exists 0. split; [lra |]. f_equal. ring.
      * intros t Ht. apply sqrt_le_1_alt. rewrite Hquad, Hstart.
        clearbody p L A B.
        assert (0 <= L * (t * (t - 2 * p)))
          by (apply Rmult_le_pos; [exact HL | apply Rmult_le_pos; lra]).
        lra.
    + split.
      * exists 1. split; [lra |]. f_equal. unfold C, D. ring.
      * intros t Ht. apply sqrt_le_1_alt. rewrite (Hquad t), Hend.
        clearbody p L A B.
        assert (0 <= L * ((1 - t) * (2 * p - t - 1)))
          by (apply Rmult_le_pos; [exact HL | apply Rmult_le_pos; lra]).
        nra.
    + split.
      * exists p. split; [lra | reflexivity].
      * intros t Ht. apply sqrt_le_1_alt. rewrite (Hquad t), (Hquad p).
        clearbody p L A B.
        assert (0 <= L * ((t - p) * (t - p)))
          by (apply Rmult_le_pos; [exact HL | apply Rle_0_sqr]).
        nra.
Qed.

Lemma findLinkAt_Some (transform : Transform.t) (nodes : list ProcessedNode.t)
    (gx gy : R) (links : list ProcessedLink.t) (tip : LinkTooltip.t) :
  findLinkAt transform nodes gx gy links = Some tip ->
  exists k link,
    links !! k = Some link
    /\ linkHit transform nodes gx gy link = Some tip
    /\ forall j other, (j < k)%nat -> links !! j = Some other ->
         linkHit transform nodes gx gy other = None.
Proof.
  induction links as [|first rest IH]; simpl; [discriminate |].
  destruct (linkHit transform nodes gx gy first) as [hit|] eqn:Hfirst.
  - intros [= ->]. exists 0%nat, first. repeat split; auto.
    intros j other Hj. lia.
  - intros Hfind. destruct (IH Hfind) as (k & link & Hk & Hhit & Hmin).
    exists (S k), link. repeat split; auto.
    intros [|j] other Hlt; simpl; [intros [= <-]; exact Hfirst | apply Hmin; lia].
Qed.

Lemma findLinkAt_None (transform : Transform.t) (nodes : list ProcessedNode.t)
    (gx gy : R) (links : list ProcessedLink.t) :
  findLinkAt transform nodes gx gy links = None ->
  forall j link, links !! j = Some link -> linkHit transform nodes gx gy link = None.
Proof.
  induction links as [|first rest IH]; simpl.
  - intros _ j link Hj. rewrite lookup_nil in Hj. discriminate.
  - destruct (linkHit transform nodes gx gy first) eqn:Hfirst; [discriminate |].
    intros Hfind [|j] link; simpl; [intros [= <-]; exact Hfirst | apply IH; exact Hfind].
Qed.

Lemma linkHit_Some (transform : Transform.t) (nodes : list ProcessedNode.t)
    (gx gy : R) (link : ProcessedLink.t) (tip : LinkTooltip.t) :
  linkHit transform nodes gx gy link = Some tip ->
  exists source target,
    nodes !! ProcessedLink.source link = Some source
    /\ nodes !! ProcessedLink.target link = Some target
    /\ segmentDistance gx gy source target < 5 / Transform.scale transform
    /\ tip = LinkTooltip.mk (ProcessedNode.id source) (ProcessedNode.id target)
               (ProcessedLink.type link)
               ((ProcessedNode.x source + ProcessedNode.x target) / 2
                * Transform.scale transform + Transform.translateX transform)
               ((ProcessedNode.y source + ProcessedNode.y target) / 2
                * Transform.scale transform + Transform.translateY transform).
Proof.
  unfold linkHit.
  destruct (nodes !! ProcessedLink.source link) as [source|]; [| discriminate].
  destruct (nodes !! ProcessedLink.target link) as [target|]; [| discriminate].
  destruct (Rlt_dec _ _) as [Hlt|]; [| discriminate].
  intros [= <-]. exists source, target. repeat split; auto.
Qed.

Lemma linkHit_near (transform : Transform.t) (nodes : list ProcessedNode.t)
    (gx gy : R) (link : ProcessedLink.t) (source target : ProcessedNode.t) :
  nodes !! ProcessedLink.source link = Some source ->
  nodes !! ProcessedLink.target link = Some target ->
  segmentDistance gx gy source target < 5 / Transform.scale transform ->
  linkHit transform nodes gx gy link = Some (linkTooltipOf transform link source target).
Proof.
  intros Hs Ht Hd. unfold linkHit. rewrite Hs, Ht.
  destruct (Rlt_dec _ _) as [_|Hno]; [reflexivity | contradiction].
Qed.

Lemma linkHit_None (transform : Transform.t) (nodes : list ProcessedNode.t)
    (gx gy : R) (link : ProcessedLink.t) :
  linkHit transform nodes gx gy link = None <-> ~ linkNear transform nodes gx gy link.
Proof.
  split.
  - intros Hnone (source & target & Hs & Ht & Hd).
    rewrite (linkHit_near _ _ _ _ _ _ _ Hs Ht Hd) in Hnone. discriminate.
  - intros Hfar. destruct (linkHit transform nodes gx gy link) as [tip|] eqn:Hhit;
      [| reflexivity].
    exfalso. apply Hfar.
    apply linkHit_Some in Hhit as (source & target & Hs & Ht & Hd & _).
    exists source, target. auto.
Qed.

Lemma findLinkAt_first (transform : Transform.t) (nodes : list ProcessedNode.t)
    (gx gy : R) (links : list ProcessedLink.t) (k : nat) (link : ProcessedLink.t)
    (tip : LinkTooltip.t) :
  links !! k = Some link ->
  linkHit transform nodes gx gy link = Some tip ->
  (forall j other, (j < k)%nat -> links !! j = Some other ->
     linkHit transform nodes gx gy other = None) ->
  findLinkAt transform nodes gx gy links = Some tip.
Proof.
  revert k. induction links as [|first rest IH]; intros k Hk Hhit Hmin.
  - rewrite lookup_nil in Hk. discriminate.
  - destruct k as [|k]; simpl in *.
    + injection Hk as ->. rewrite Hhit. reflexivity.
    + rewrite (Hmin 0%nat first) by (reflexivity || lia).
      apply (IH k Hk Hhit). intros j other Hj. apply (Hmin (S j)). lia.
Qed.

Lemma findLinkAt_all_far (transform : Transform.t) (nodes : list ProcessedNode.t)
    (gx gy : R) (links : list ProcessedLink.t) :
  (forall j link, links !! j = Some link -> linkHit transform nodes gx gy link = None) ->
  findLinkAt transform nodes gx gy links = None.
Proof.
  induction links as [|first rest IH]; intros Hall; simpl; [reflexivity |].
  rewrite (Hall 0%nat first eq_refl). apply IH.
  intros j link. apply (Hall (S j)).
Qed.

(** X18: in the idle mode, when the graph point of the cursor is in no
    node, a pointer move shows no node tooltip, and the link tooltip it
    sets is that of the first link in array order which has both endpoints
    and whose segment is nearer than 5 / scale, that is, for a positive
    scale, nearer than 5 pixels on the screen: a tooltip is reported
    exactly when it carries the ids of the endpoints of that link, its
    type and the screen position of its midpoint, and none is reported
    exactly when no link is that near. *)
Theorem hover_reports_first_link (st : State) (cx cy : R) (rect : Rect.t)
    (pd : ProcessedGraphData.t) :
  canvas st = Some rect ->
  mode st = Idle ->
  processedData st = Some pd ->
  let g := screenToGraph (transform st) (cx - Rect.left rect) (cy - Rect.top rect) in
  let st' := step (MouseMove cx cy) st in
  let nodes := ProcessedGraphData.nodes pd in
  let links := ProcessedGraphData.links pd in
  (forall i node, nodes !! i = Some node -> nodeHit g.1 g.2 node = false) ->
  tooltipNode st' = None
  /\ (forall tip,
        tooltipLink st' = Some tip
        <-> exists k link source target,
              links !! k = Some link
              /\ nodes !! ProcessedLink.source link = Some source
              /\ nodes !! ProcessedLink.target link = Some target
              /\ segmentDistance g.1 g.2 source target < 5 / Transform.scale (transform st)
              /\ tip = linkTooltipOf (transform st) link source target
              /\ forall j other, (j < k)%nat -> links !! j = Some other ->
                   ~ linkNear (transform st) nodes g.1 g.2 other)
  /\ (tooltipLink st' = None
      <-> forall j link, links !! j = Some link ->
            ~ linkNear (transform st) nodes g.1 g.2 link)
  /\ (0 < Transform.scale (transform st) ->
      forall link source target,
        nodes !! ProcessedLink.source link = Some source ->
        nodes !! ProcessedLink.target link = Some target ->
        (linkNear (transform st) nodes g.1 g.2 link
         <-> segmentDistance g.1 g.2 source target * Transform.scale (transform st) < 5)).
Proof.
  intros Hcv Hmode Hpd g st' nodes links Hnone.
  apply mode_Idle in Hmode as [Hpan Hnodrag].
  assert (st' = hover g.1 g.2 pd st) as ->.
  { unfold st'. simpl. unfold handleMouseMove. rewrite Hcv, Hpan, Hpd. fold g.
    destruct Hnodrag as [-> | ->]; [reflexivity |].
    destruct (isDragging st); reflexivity. }
  assert (tooltipNode (hover g.1 g.2 pd st) = None
          /\ tooltipLink (hover g.1 g.2 pd st)
             = findLinkAt (transform st) nodes g.1 g.2 links) as [Hnode Hlink].
  { unfold hover. fold nodes links.
    destruct (findNodeAt g.1 g.2 0 nodes) as [[k first]|] eqn:Hfind.
    { apply findNodeAt_Some in Hfind as (j & _ & Hj & Hhit & _).
      rewrite (Hnone j first Hj) in Hhit. discriminate. }
    destruct (findLinkAt (transform st) nodes g.1 g.2 links); split; reflexivity. }
  rewrite Hlink. split; [exact Hnode |]. split; [| split].
  - intros tip. split.
    + intros Hfind.
      apply findLinkAt_Some in Hfind as (k & link & Hk & Hhit & Hmin).
      apply linkHit_Some in Hhit as (source & target & Hs & Ht & Hd & Htip).
      exists k, link, source, target. repeat split; auto.
      intros j other Hj Hother. apply linkHit_None. exact (Hmin j other Hj Hother).
    + intros (k & link & source & target & Hk & Hs & Ht & Hd & -> & Hmin).
      apply (findLinkAt_first _ _ _ _ _ k link); [exact Hk | |].
      * apply linkHit_near; assumption.
      * intros j other Hj Hother. apply linkHit_None. exact (Hmin j other Hj Hother).
  - split.
    + intros Hfind j link Hj. apply linkHit_None.
      exact (findLinkAt_None _ _ _ _ _ Hfind j link Hj).
    + intros Hfar. apply findLinkAt_all_far.
      intros j link Hj. apply linkHit_None. exact (Hfar j link Hj).
  - intros Hpos link source target Hs Ht.
    assert (segmentDistance g.1 g.2 source target < 5 / Transform.scale (transform st)
            <-> segmentDistance g.1 g.2 source target * Transform.scale (transform st) < 5)
      as Hscale.
    { split; intros Hd.
      - apply (Rmult_lt_compat_r _ _ _ Hpos) in Hd.
        replace (5 / Transform.scale (transform st) * Transform.scale (transform st))
          with 5 in Hd by (field; lra).
        exact Hd.
      - apply (Rmult_lt_reg_r (Transform.scale (transform st))); [exact Hpos |].
        replace (5 / Transform.scale (transform st) * Transform.scale (transform st))
          with 5 by (field; lra).
        exact Hd. }
    rewrite <- Hscale. split.
    + intros (source' & target' & Hs' & Ht' & Hd). congruence.
    + intros Hd. exists source, target. auto.
Qed.

Lemma hoverState_no_nodeHit (i : nat) (node : ProcessedNode.t) :
  [placeNode 800 600 drawsLeftRight 0 (GraphNode.mk "A" 10 "main" None);
   placeNode 800 600 drawsLeftRight 1 (GraphNode.mk "B" 10 "minor" None)] !! i
  = Some node ->
  nodeHit ((400 - 0 - 0) / 1) ((300 - 0 - 0) / 1) node = false.
Proof.
  assert (forall px, (px = 350 \/ px = 450) ->
            ~ sqrt ((px - (400 - 0 - 0) / 1) * (px - (400 - 0 - 0) / 1)
                    + (300 - (300 - 0 - 0) / 1) * (300 - (300 - 0 - 0) / 1))
              < 10 / 2 + 4) as Hfar.
  { intros px Hpx.
    replace ((px - (400 - 0 - 0) / 1) * (px - (400 - 0 - 0) / 1)
             + (300 - (300 - 0 - 0) / 1) * (300 - (300 - 0 - 0) / 1))
      with (50 * 50) by (destruct Hpx as [-> | ->]; lra).
    rewrite sqrt_square by lra. lra. }
  destruct i as [|[|i]]; simpl; [| | discriminate].
  - intros [= <-]. unfold nodeHit. simpl.
    replace (800 / 2 + (0.25 - 0.5) * 200) with 350 by lra.
    replace (600 / 2 + (0.5 - 0.5) * 200) with 300 by lra.
    destruct (Rlt_dec _ _) as [Hlt|]; [| reflexivity].
    exfalso. exact (Hfar 350 (or_introl eq_refl) Hlt).
  - intros [= <-]. unfold nodeHit. simpl.
    replace (800 / 2 + (0.75 - 0.5) * 200) with 450 by lra.
    replace (600 / 2 + (0.5 - 0.5) * 200) with 300 by lra.
    destruct (Rlt_dec _ _) as [Hlt|]; [| reflexivity].
    exfalso. exact (Hfar 450 (or_intror eq_refl) Hlt).
Qed.

(** Halfway between A and B the point is on the segment. *)
Lemma hoverState_midpoint :
  segmentDistance ((400 - 0 - 0) / 1) ((300 - 0 - 0) / 1)
    (placeNode 800 600 drawsLeftRight 0 (GraphNode.mk "A" 10 "main" None))
    (placeNode 800 600 drawsLeftRight 1 (GraphNode.mk "B" 10 "minor" None))
  < 5 / 1.
Proof.
  unfold segmentDistance. simpl.
  replace (800 / 2 + (0.25 - 0.5) * 200) with 350 by lra.
  replace (800 / 2 + (0.75 - 0.5) * 200) with 450 by lra.
  replace (600 / 2 + (0.5 - 0.5) * 200) with 300 by lra.
  replace ((400 - 0 - 0) / 1) with 400 by lra.
  replace ((300 - 0 - 0) / 1) with 300 by lra.
  replace (((400 - 350) * (450 - 350) + (300 - 300) * (300 - 300))
           / ((450 - 350) * (450 - 350) + (300 - 300) * (300 - 300)))
    with 0.5 by lra.
  destruct (Req_dec_T _ _) as [Hz|_]; [lra |].
  destruct (Rlt_dec _ _) as [Hneg|_]; [lra |].
  destruct (Rgt_dec _ _) as [Hbig|_]; [lra |].
  match goal with |- sqrt ?a < _ => replace a with 0 by lra end.
  rewrite sqrt_0. lra.
Qed.

Lemma hover_reports_first_link_witness :
  tooltipNode (step (MouseMove 400 300) hoverState) = None
  /\ exists tip,
       tooltipLink (step (MouseMove 400 300) hoverState) = Some tip
       /\ LinkTooltip.source tip = "A"
       /\ LinkTooltip.target tip = "B"
       /\ LinkTooltip.type tip = "Friend".
Proof.
  destruct (hover_reports_first_link hoverState 400 300 (Rect.mk 0 0 800 600) _
              eq_refl eq_refl hoverState_model hoverState_no_nodeHit)
    as (Hnode & Hlink & _).
  split; [exact Hnode |].
  eexists. split.
  - apply Hlink.
    exists 0%nat, (ProcessedLink.mk 0 1 (opt_num_or (Some 5) 2) "Friend"),
      (placeNode 800 600 drawsLeftRight 0 (GraphNode.mk "A" 10 "main" None)),
      (placeNode 800 600 drawsLeftRight 1 (GraphNode.mk "B" 10 "minor" None)).
    split; [reflexivity |]. split; [reflexivity |]. split; [reflexivity |].
    split; [exact hoverState_midpoint |]. split; [reflexivity |].
    intros j other Hj. lia.
  - repeat split.
Defined.

Lemma step_oneTooltip (e : Event) (st : State) :
  oneTooltip st -> oneTooltip (step e st).
Proof.
  unfold oneTooltip. intros H.
  destruct e as [cx cy|cx cy b alt| |cx cy dy|k|k| | | |c|g| ]; simpl; try exact H.
  - unfold handleMouseMove. destruct (canvas st); [| exact H].
    destruct (isPanning st); [exact H |].
    assert (forall gx gy pd,
              tooltipNode (hover gx gy pd st) = None
              \/ tooltipLink (hover gx gy pd st) = None) as Hh.
    { intros gx gy pd. unfold hover.
      destruct (findNodeAt _ _ _ _) as [[? ?]|]; [right; reflexivity |].
      destruct (findLinkAt _ _ _ _ _); left; reflexivity. }
    destruct (isDragging st), (dragNode st), (processedData st);
      try exact H; try apply Hh.
    destruct H as [H | H]; [left; apply assignNodes_tooltipNode_None; exact H | right; exact H].
  - unfold handleMouseDown. destruct (canvas st), (processedData st); try exact H.
    destruct (_ || _)%bool; [exact H |].
    destruct (findNodeAt _ _ _ _) as [[? ?]|]; exact H.
  - unfold handleWheel. destruct (canvas st); exact H.
  - unfold handleKeyDown.
    destruct (_ || _)%bool, (_ && _)%bool, (canvas st); exact H.
  - unfold handleKeyUp. destruct (bool_decide _); exact H.
  - unfold updateDimensions. destruct c; [| exact H].
    unfold runGraphEffect. destruct (processGraphData _ _ _); exact H.
  - unfold receiveGraphData, runGraphEffect.
    destruct (processGraphData _ _ _); exact H.
  - unfold animationFrame. destruct (processedData st); [| exact H].
    destruct (Nat.eqb _ _); [exact H |].
    destruct H as [H | H]; [left; apply assignNodes_tooltipNode_None; exact H | right; exact H].
Qed.

(** X19: the component never shows two tooltips: from a freshly mounted
    component, after any sequence of events, the node tooltip or the link
    tooltip is absent. *)
Theorem never_two_tooltips (es : list Event) (g : option GraphData.t)
    (cv : option Rect.t) (rnd : nat -> R) :
  oneTooltip (run es (initialState g cv rnd)).
Proof.
  assert (forall st, oneTooltip st -> oneTooltip (run es st)) as Hrun.
  { unfold run. induction es as [|e es IH]; intros st H; simpl; [exact H |].
    apply IH, step_oneTooltip, H. }
  apply Hrun. left. reflexivity.
Qed.

(** ** What is drawn *)

Lemma render_Some (measureText : string -> R -> R) (st : State) (cmds : list DrawCmd) :
  render measureText st = Some cmds ->
  exists pd,
    processedData st = Some pd
    /\ forall c, In c cmds ->
         c = ClearRect 0 0 (Dimensions.width (dimensions st)) (Dimensions.height (dimensions st))
         \/ c = Save
         \/ c = Translate (Transform.translateX (transform st))
                  (Transform.translateY (transform st))
         \/ c = Scale (Transform.scale (transform st)) (Transform.scale (transform st))
         \/ (exists link, In link (ProcessedGraphData.links pd)
               /\ In c (drawLink (transform st) (ProcessedGraphData.nodes pd) link))
         \/ (exists node, In node (ProcessedGraphData.nodes pd)
               /\ In c (drawNode measureText (transform st) node))
         \/ c = Restore
         \/ c = FillText (ZoomText (jsRound (Transform.scale (transform st) * 100)))
                  10 (Dimensions.height (dimensions st) - 10)
                  "rgba(255, 255, 255, 0.7)" 10.
Proof.
  unfold render. destruct (canvas st); [| discriminate].
  destruct (processedData st) as [pd|]; [| discriminate].
  intros [= <-]. exists pd. split; [reflexivity |].
  intros c Hc. simpl in Hc.
  destruct Hc as [<-|[<-|[<-|[<-|Hc]]]]; auto 6.
  apply in_app_iff in Hc as [Hc|Hc].
  { apply in_concat in Hc as (l & Hl & Hc). apply in_map_iff in Hl as (link & <- & Hlink).
    do 4 right. left. eauto. }
  apply in_app_iff in Hc as [Hc|Hc].
  { apply in_concat in Hc as (l & Hl & Hc). apply in_map_iff in Hl as (node & <- & Hnode).
    do 5 right. left. eauto. }
  destruct Hc as [<-|[<-|[]]]; auto 10.
Qed.

(** X20: at a positive scale everything [render] strokes or fills has a
    zoom-independent size on the screen: a link line is between 2 and 4
    pixels wide and its halo between 5 and 7, a node outline is 1.5 pixels
    wide, a node disc has a radius of at least 8 pixels, namely
    [max 8 (size / 2 + 4)], and every label is written at 12 pixels. *)
Theorem drawn_sizes_on_screen (measureText : string -> R -> R) (st : State)
    (cmds : list DrawCmd) :
  0 < Transform.scale (transform st) ->
  render measureText st = Some cmds ->
  let s := Transform.scale (transform st) in
  (forall x1 y1 x2 y2 style w, In (StrokeLine x1 y1 x2 y2 style w) cmds ->
     (style <> "rgba(255, 255, 255, 0.3)" /\ 2 <= w * s <= 4)
     \/ (style = "rgba(255, 255, 255, 0.3)" /\ 5 <= w * s <= 7))
  /\ (forall x y r style w, In (StrokeDisc x y r style w) cmds ->
        w * s = 1.5 /\ 8 <= r * s)
  /\ (forall x y r style, In (FillDisc x y r style) cmds ->
        8 <= r * s
        /\ exists pd node,
             processedData st = Some pd
             /\ In node (ProcessedGraphData.nodes pd)
             /\ x = ProcessedNode.x node /\ y = ProcessedNode.y node
             /\ r * s = Rmax 8 (ProcessedNode.size node / 2 + 4))
  /\ (forall label x y style px, In (FillText (LabelText label) x y style px) cmds ->
        px * s = 12).
Proof.
  intros Hs Hr s. destruct (render_Some _ _ _ Hr) as (pd & Hpd & Hcmds).
  assert (forall v, v / s * s = v) as Hdiv by (intros v; field; unfold s; lra).
  assert (forall c, In c cmds ->
            (exists link, In link (ProcessedGraphData.links pd)
               /\ In c (drawLink (transform st) (ProcessedGraphData.nodes pd) link))
            \/ (exists node, In node (ProcessedGraphData.nodes pd)
                  /\ In c (drawNode measureText (transform st) node))
            \/ (forall x1 y1 x2 y2 style w, c <> StrokeLine x1 y1 x2 y2 style w)
               /\ (forall x y r style w, c <> StrokeDisc x y r style w)
               /\ (forall x y r style, c <> FillDisc x y r style)
               /\ (forall label x y style px, c <> FillText (LabelText label) x y style px))
    as Hsplit.
  { intros c Hc.
    destruct (Hcmds c Hc) as [->|[->|[->|[->|[H|[H|[->| ->]]]]]]]; auto;
      right; right; repeat split; intros; discriminate. }
  assert (forall link c,
            In c (drawLink (transform st) (ProcessedGraphData.nodes pd) link) ->
            exists x1 y1 x2 y2 style w,
              c = StrokeLine x1 y1 x2 y2 style w
              /\ ((style <> "rgba(255, 255, 255, 0.3)" /\ 2 <= w * s <= 4)
                  \/ (style = "rgba(255, 255, 255, 0.3)" /\ 5 <= w * s <= 7))) as Hlink.
  { intros link c. unfold drawLink.
    destruct (_ !! _) as [source|]; [| intros []].
    destruct (_ !! _) as [target|]; [| intros []].
    intros [<-|[<-|[]]]; do 6 eexists; (split; [reflexivity |]).
    - left. split.
      + unfold linkStrokeStyle. destruct (decide _); discriminate.
      + unfold linkLineWidth. fold s. rewrite Hdiv.
        unfold Rmax, Rmin. repeat destruct (Rle_dec _ _); lra.
    - right. split; [reflexivity |].
      unfold linkHaloWidth. fold s. rewrite Hdiv.
      unfold Rmax, Rmin. repeat destruct (Rle_dec _ _); lra. }
  assert (forall node, 8 <= nodeSize (transform st) node * s
                       /\ nodeSize (transform st) node * s
                          = Rmax 8 (ProcessedNode.size node / 2 + 4)) as Hsize.
  { intros node. unfold nodeSize. fold s. rewrite Hdiv. split; [apply Rmax_l | reflexivity]. }
  split; [| split; [| split]].
  - intros x1 y1 x2 y2 style w Hc.
    destruct (Hsplit _ Hc) as [(link & _ & Hin)|[(node & _ & Hin)|(Hno & _)]].
    + destruct (Hlink _ _ Hin) as (? & ? & ? & ? & ? & ? & [= -> -> -> -> -> ->] & H).
      exact H.
    + unfold drawNode in Hin. simpl in Hin.
      destruct Hin as [H|[H|[H|[H|[]]]]]; discriminate.
    + exfalso. eapply Hno. reflexivity.
  - intros x y r style w Hc.
    destruct (Hsplit _ Hc) as [(link & _ & Hin)|[(node & _ & Hin)|(_ & Hno & _)]].
    + destruct (Hlink _ _ Hin) as (? & ? & ? & ? & ? & ? & H & _). discriminate.
    + unfold drawNode in Hin. simpl in Hin.
      destruct Hin as [H|[H|[H|[H|[]]]]]; try discriminate.
      injection H as <- <- <- <- <-. fold s. rewrite Hdiv.
      split; [reflexivity | apply Hsize].
    + exfalso. eapply Hno. reflexivity.
  - intros x y r style Hc.
    destruct (Hsplit _ Hc) as [(link & _ & Hin)|[(node & Hnode & Hin)|(_ & _ & Hno & _)]].
    + destruct (Hlink _ _ Hin) as (? & ? & ? & ? & ? & ? & H & _). discriminate.
    + unfold drawNode in Hin. simpl in Hin.
      destruct Hin as [H|[H|[H|[H|[]]]]]; try discriminate.
      injection H as <- <- <- <-.
      split; [apply Hsize |]. exists pd, node.
      repeat split; [exact Hpd | exact Hnode | apply Hsize].
    + exfalso. eapply Hno. reflexivity.
  - intros label x y style px Hc.
    destruct (Hsplit _ Hc) as [(link & _ & Hin)|[(node & _ & Hin)|(_ & _ & _ & Hno)]].
    + destruct (Hlink _ _ Hin) as (? & ? & ? & ? & ? & ? & H & _). discriminate.
    + unfold drawNode in Hin. simpl in Hin.
      destruct Hin as [H|[H|[H|[H|[]]]]]; try discriminate.
      injection H as <- <- <- <- <-. fold s. apply Hdiv.
    + exfalso. eapply Hno. reflexivity.
Qed.

Lemma drawn_sizes_on_screen_witness :
  exists cmds,
    render (fun _ _ => 0) hoverState = Some cmds
    /\ forall label x y style px,
         In (FillText (LabelText label) x y style px) cmds -> px * 1 = 12.
Proof.
  eexists. split; [reflexivity |].
  refine (proj2 (proj2 (proj2
            (drawn_sizes_on_screen (fun _ _ => 0) hoverState _ _ eq_refl)))).
  simpl. lra.
Defined.





(** ** Role colours *)

(** X22: the colour of a node in the graph and the colour of the role
    badge in the character list classify roles in the same way: two roles
    get the same node colour exactly when they get the same badge colour,
    and a node of a built model has the colour of its role. *)
Theorem role_colours_agree (role1 role2 : string) (d : Dimensions.t) (rnd : nat -> R)
    (i : nat) (raw : GraphNode.t) :
  (getNodeColor role1 = getNodeColor role2
   <-> getRoleBadgeColor role1 = getRoleBadgeColor role2)
  /\ ProcessedNode.color (placeNode (Dimensions.width d) (Dimensions.height d) rnd i raw)
     = getNodeColor (GraphNode.role raw)
  /\ (getNodeColor role1 = "#ff6b6b" <-> toLowerCase role1 = "main")
  /\ (getNodeColor role1 = "#4ecdc4" <-> toLowerCase role1 = "supporting")
  /\ (getNodeColor role1 = "#ffd166" <-> toLowerCase role1 = "minor").
Proof.
  unfold getNodeColor, getRoleBadgeColor. simpl.
  split; [| split; [reflexivity |]].
  - destruct (decide (toLowerCase role1 = "main")),
             (decide (toLowerCase role1 = "supporting")),
             (decide (toLowerCase role1 = "minor")),
             (decide (toLowerCase role2 = "main")),
             (decide (toLowerCase role2 = "supporting")),
             (decide (toLowerCase role2 = "minor"));
      split; intros H; try reflexivity; discriminate H.
  - destruct (decide (toLowerCase role1 = "main")) as [->|],
             (decide (toLowerCase role1 = "supporting")) as [H|],
             (decide (toLowerCase role1 = "minor")) as [H'|];
      repeat split; intros; try reflexivity; try discriminate; try congruence.
Qed.

(** ** The history of analysed books *)

(** X23: in the browser, saving a book puts its entry, with the given
    title or "Book #id", first; the other entries are the earlier entries
    of other books, in their order; the book occurs once, at most 20
    entries are kept, pairwise distinct ids stay pairwise distinct, and
    the list is what [getBookHistory] returns next.  Outside the browser
    nothing is stored and the history reads as empty. *)
Theorem saved_book_comes_first (stored : option (list BookHistoryItem.t))
    (bookId : string) (bookTitle : option string) (now : R) :
  let old := getBookHistory true stored in
  let entry :=
    BookHistoryItem.mk bookId (opt_str_or bookTitle (String.append "Book #" bookId)) now in
  (exists rest,
      saveBookToHistory true stored bookId bookTitle now = Some (entry :: rest)
      /\ getBookHistory true (saveBookToHistory true stored bookId bookTitle now)
         = entry :: rest
      /\ rest `sublist_of` old
      /\ rest = take 19 (filter (fun item => BookHistoryItem.id item <> bookId) old)
      /\ ~ (bookId ∈ (BookHistoryItem.id <$> rest))
      /\ (length (entry :: rest) <= 20)%nat
      /\ (NoDup (BookHistoryItem.id <$> old) ->
          NoDup (BookHistoryItem.id <$> (entry :: rest))))
  /\ saveBookToHistory false stored bookId bookTitle now = stored
  /\ getBookHistory false stored = []
  /\ getBookHistory true (clearBookHistory true stored) = [].
Proof.
  intros old entry. split; [| repeat split].
  set (others := filter (fun item => BookHistoryItem.id item <> bookId) old).
  assert (saveBookToHistory true stored bookId bookTitle now
          = Some (entry :: take 19 others)) as Hsave.
  { unfold saveBookToHistory, MAX_HISTORY_ITEMS. simpl negb. cbv iota.
    change (match stored with Some items => items | None => [] end) with old.
    fold others. fold entry.
    destruct (_ <? _)%nat eqn:E.
    - reflexivity.
    - apply Nat.ltb_ge in E. simpl in E.
      change (take 20 (entry :: others)) with (entry :: take 19 others) in *.
      rewrite take_ge by lia. reflexivity. }
  exists (take 19 others). rewrite Hsave.
  assert (take 19 others `sublist_of` others) as Hsub1 by apply sublist_take.
  assert (others `sublist_of` old) as Hsub2 by apply sublist_filter.
  split; [reflexivity |]. split; [reflexivity |].
  split; [etransitivity; eassumption |].
  split; [reflexivity |].
  assert (bookId ∉ BookHistoryItem.id <$> take 19 others) as Hnotin.
  { intros Hin. apply list_elem_of_fmap in Hin as (item & Hid & Hitem).
    apply (elem_of_sublist _ _ _ Hitem) in Hsub1.
    rename Hsub1 into Hitem'.
    apply list_elem_of_filter in Hitem' as [Hne _]. congruence. }
  split; [exact Hnotin |].
  split; [simpl; rewrite length_take; lia |].
  intros Hnd. rewrite fmap_cons. apply NoDup_cons. split; [exact Hnotin |].
  eapply sublist_NoDup; [exact Hnd |].
  apply fmap_sublist. etransitivity; eassumption.
Qed.

(** ** A frame in closed form *)

Lemma addVelocity_zero (node : ProcessedNode.t) : addVelocity 0 0 node = node.
Proof. destruct node. unfold addVelocity, ProcessedNode.set_vel. simpl. f_equal; lra. Qed.

Lemma springTerm_ext (drag : option nat) (l1 l2 : list ProcessedNode.t)
    (link : ProcessedLink.t) (i : nat) :
  position <$> l1 = position <$> l2 ->
  springTerm drag l1 link i = springTerm drag l2 link i.
Proof.
  intros Hpos. unfold springTerm.
  assert (length l1 = length l2) as ->
    by (rewrite <- (length_fmap position l1), Hpos; apply length_fmap).
  destruct (_ || _)%bool; [reflexivity |].
  assert (forall j, position <$> l1 !! j = position <$> l2 !! j) as Hj
    by (intros j; rewrite <- !list_lookup_fmap, Hpos; reflexivity).
  pose proof (Hj (ProcessedLink.source link)) as Hs.
  pose proof (Hj (ProcessedLink.target link)) as Ht.
  destruct (l1 !! ProcessedLink.source link) as [s1|],
           (l2 !! ProcessedLink.source link) as [s2|]; try discriminate; [| reflexivity].
  destruct (l1 !! ProcessedLink.target link) as [t1|],
           (l2 !! ProcessedLink.target link) as [t2|]; try discriminate; [| reflexivity].
  simpl in Hs, Ht. injection Hs as Hsx Hsy. injection Ht as Htx Hty.
  unfold springForce. rewrite Hsx, Hsy, Htx, Hty. reflexivity.
Qed.

Lemma lookup_alter_unless {A : Type} (f : A -> A) (b : bool) (i j : nat) (l : list A) :
  (if b then l else alter f i l) !! j
  = (if (negb b && Nat.eqb i j)%bool then f else fun a => a) <$> l !! j.
Proof.
  destruct b; simpl.
  - destruct (l !! j); reflexivity.
  - destruct (Nat.eqb_spec i j) as [->|Hne].
    + apply list_lookup_alter_eq.
    + rewrite list_lookup_alter_ne by exact Hne. destruct (l !! j); reflexivity.
Qed.

(** One pass of the spring loop adds its term to every node. *)
Lemma linkStep_imap (drag : option nat) (link : ProcessedLink.t)
    (l : list ProcessedNode.t) :
  linkStep drag link l
  = imap (fun i node =>
            addVelocity (springTerm drag l link i).1 (springTerm drag l link i).2 node) l.
Proof.
  apply list_eq. intros j. rewrite list_lookup_imap.
  unfold linkStep, springTerm.
  destruct (_ || _)%bool.
  { destruct (l !! j); simpl; [rewrite addVelocity_zero |]; reflexivity. }
  destruct (l !! ProcessedLink.source link) as [source|] eqn:Hs;
    [| destruct (l !! j); simpl; [rewrite addVelocity_zero |]; reflexivity].
  destruct (l !! ProcessedLink.target link) as [target|] eqn:Ht;
    [| destruct (l !! j); simpl; [rewrite addVelocity_zero |]; reflexivity].
  set (f := springForce source target (ProcessedLink.value link)).
  rewrite !lookup_alter_unless.
  rewrite (Nat.eqb_sym j (ProcessedLink.source link)).
  rewrite (Nat.eqb_sym j (ProcessedLink.target link)).
  destruct (isDragNode drag (ProcessedLink.source link)),
           (isDragNode drag (ProcessedLink.target link)),
           (Nat.eqb (ProcessedLink.source link) j),
           (Nat.eqb (ProcessedLink.target link) j),
           (l !! j) as [node|]; simpl; try reflexivity;
    f_equal; destruct node; unfold addVelocity, ProcessedNode.set_vel; simpl;
    f_equal; lra.
Qed.

Lemma position_linkStep (drag : option nat) (link : ProcessedLink.t)
    (l : list ProcessedNode.t) :
  position <$> linkStep drag link l = position <$> l.
Proof.
  rewrite linkStep_imap, fmap_imap. unfold compose. simpl.
  rewrite (imap_ext _ (fun _ node => position node)) by reflexivity.
  apply imap_const.
Qed.

(** The whole spring loop adds to every node the sum of its terms,
    computed from the positions before the loop. *)
Lemma springLoop_imap (drag : option nat) (links : list ProcessedLink.t)
    (l0 l : list ProcessedNode.t) :
  position <$> l = position <$> l0 ->
  for_of links (linkStep drag) l
  = imap (fun i node =>
            addVelocity (springSum drag l0 links i).1 (springSum drag l0 links i).2 node) l.
Proof.
  unfold for_of. revert l. induction links as [|link rest IH]; intros l Hpos; simpl.
  - rewrite (imap_ext _ (fun _ node => node)) by (intros; apply addVelocity_zero).
    apply list_eq. intros j. rewrite list_lookup_imap. destruct (l !! j); reflexivity.
  - rewrite IH by (rewrite position_linkStep; exact Hpos).
    rewrite linkStep_imap.
    apply list_eq. intros j. rewrite !list_lookup_imap.
    destruct (l !! j) as [node|]; simpl; [| reflexivity].
    rewrite addVelocity_addVelocity, (springTerm_ext drag l l0 link j Hpos).
    reflexivity.
Qed.

Lemma position_forceLoop (w h : R) (drag : option nat) (nodes : list ProcessedNode.t) :
  position <$> for_range (length nodes) (forceStep w h drag) nodes = position <$> nodes.
Proof.
  rewrite forceLoop_imap, fmap_imap. unfold compose.
  rewrite (imap_ext _ (fun _ node => position node))
    by (intros i node _; simpl; destruct (isDragNode drag i); reflexivity).
  apply imap_const.
Qed.

Lemma springSum_pinned (d : nat) (nodes : list ProcessedNode.t)
    (links : list ProcessedLink.t) :
  springSum (Some d) nodes links d = (0, 0).
Proof.
  unfold springSum. induction links as [|link rest IH]; simpl; [reflexivity |].
  rewrite IH. simpl. unfold springTerm.
  destruct (_ || _)%bool; [simpl; f_equal; lra |].
  destruct (nodes !! _); [| simpl; f_equal; lra].
  destruct (nodes !! _); [| simpl; f_equal; lra].
  simpl.
  destruct (Nat.eqb d (ProcessedLink.source link)),
           (Nat.eqb d (ProcessedLink.target link)); simpl; f_equal; lra.
Qed.

(** X24: a frame is a synchronous update.  A node other than [dragNode]
    ends at the clamped sum of its position, its velocity, its centering
    and repulsion terms and its spring terms, all computed from the
    positions the nodes had when the frame began, and keeps nine tenths of
    that velocity; [dragNode] is not changed. *)
Theorem frame_closed_form (d : Dimensions.t) (drag : option nat)
    (links : list ProcessedLink.t) (nodes : list ProcessedNode.t)
    (i : nat) (node : ProcessedNode.t) :
  nodes !! i = Some node ->
  let w := Dimensions.width d in
  let h := Dimensions.height d in
  let f := forceSum w h nodes i node in
  let s := springSum drag nodes links i in
  let vx := ProcessedNode.vx node + f.1 + s.1 in
  let vy := ProcessedNode.vy node + f.2 + s.2 in
  simulateNodes d drag links nodes !! i
  = Some (if isDragNode drag i then node
          else ProcessedNode.set_pos
                 (Rmax 20 (Rmin (w - 20) (ProcessedNode.x node + vx)))
                 (Rmax 20 (Rmin (h - 20) (ProcessedNode.y node + vy)))
                 (ProcessedNode.set_vel (vx * 0.9) (vy * 0.9) node)).
Proof.
  intros Hi w h f s vx vy. unfold simulateNodes. fold w h.
  set (nodes1 := for_range (length nodes) (forceStep w h drag) nodes).
  assert (position <$> nodes1 = position <$> nodes) as Hpos1
    by apply position_forceLoop.
  assert (length nodes1 = length nodes) as Hlen1
    by (rewrite <- (length_fmap position nodes1), Hpos1; apply length_fmap).
  rewrite (springLoop_imap drag links nodes nodes1 Hpos1).
  rewrite <- (length_imap
                (fun i node =>
                   addVelocity (springSum drag nodes links i).1
                     (springSum drag nodes links i).2 node) nodes1) in Hlen1.
  rewrite <- Hlen1, moveLoop_imap, !list_lookup_imap.
  unfold nodes1. rewrite forceLoop_imap, list_lookup_imap, Hi. simpl.
  fold f s. f_equal.
  destruct (isDragNode drag i) eqn:Hdrag.
  - destruct drag as [d0|]; [| discriminate]. simpl in Hdrag.
    apply Nat.eqb_eq in Hdrag. subst d0.
    unfold s. rewrite springSum_pinned. apply addVelocity_zero.
  - rewrite addVelocity_addVelocity. unfold integrate, vx, vy.
    destruct node. unfold addVelocity, ProcessedNode.set_pos, ProcessedNode.set_vel.
    simpl. f_equal; f_equal; try lra; f_equal; lra.
Qed.

Lemma frame_closed_form_witness :
  simulateNodes (Dimensions.mk 800 600) None [] [nodeAt "A" 400 300] !! 0%nat
  = Some (ProcessedNode.set_pos
            (Rmax 20 (Rmin (800 - 20)
               (400 + (0 + (forceSum 800 600 [nodeAt "A" 400 300] 0 (nodeAt "A" 400 300)).1 + 0))))
            (Rmax 20 (Rmin (600 - 20)
               (300 + (0 + (forceSum 800 600 [nodeAt "A" 400 300] 0 (nodeAt "A" 400 300)).2 + 0))))
            (ProcessedNode.set_vel
               ((0 + (forceSum 800 600 [nodeAt "A" 400 300] 0 (nodeAt "A" 400 300)).1 + 0) * 0.9)
               ((0 + (forceSum 800 600 [nodeAt "A" 400 300] 0 (nodeAt "A" 400 300)).2 + 0) * 0.9)
               (nodeAt "A" 400 300))).
Proof.
  exact (frame_closed_form (Dimensions.mk 800 600) None [] [nodeAt "A" 400 300] 0
           (nodeAt "A" 400 300) eq_refl).
Defined.

(** ** The zoom readout, the viewport height, Alt during a drag *)

Lemma jsRound_near (v : R) : IZR (jsRound v) - 0.5 <= v < IZR (jsRound v) + 0.5.
Proof.
  unfold jsRound. destruct (base_Int_part (v + 0.5)) as [H1 H2]. lra.
Qed.

(** X25: at a scale within [0.1, 10] the last thing [render] draws is the
    zoom readout, at [(10, height - 10)], and the percentage it shows is a
    whole number between 10 and 1000 within one half of [100 * scale]. *)
Theorem zoom_readout (measureText : string -> R -> R) (st : State)
    (cmds : list DrawCmd) :
  scaleInRange st ->
  render measureText st = Some cmds ->
  exists p,
    last cmds
    = Some (FillText (ZoomText p) 10 (Dimensions.height (dimensions st) - 10)
              "rgba(255, 255, 255, 0.7)" 10)
    /\ (10 <= p <= 1000)%Z
    /\ IZR p - 0.5 <= Transform.scale (transform st) * 100 < IZR p + 0.5.
Proof.
  unfold scaleInRange. intros Hs Hr.
  exists (jsRound (Transform.scale (transform st) * 100)).
  pose proof (jsRound_near (Transform.scale (transform st) * 100)) as Hnear.
  split; [| split; [| exact Hnear]].
  - unfold render in Hr. destruct (canvas st); [| discriminate].
    destruct (processedData st); [| discriminate]. injection Hr as <-.
    rewrite !last_cons, !last_app. reflexivity.
  - set (p := jsRound (Transform.scale (transform st) * 100)) in *.
    assert (9 < IZR p) as Hlo by lra. assert (IZR p < 1001) as Hhi by lra.
    apply lt_IZR in Hlo. apply lt_IZR in Hhi. lia.
Qed.

Lemma zoom_readout_witness :
  exists cmds p,
    render (fun _ _ => 0) hoverState = Some cmds
    /\ last cmds = Some (FillText (ZoomText p) 10 (600 - 10) "rgba(255, 255, 255, 0.7)" 10)
    /\ (10 <= p <= 1000)%Z.
Proof.
  eexists.
  destruct (zoom_readout (fun _ _ => 0) hoverState _
              ltac:(unfold scaleInRange; simpl; lra) eq_refl) as (p & Hlast & Hp & _).
  exists p. split; [reflexivity |]. split; [exact Hlast | exact Hp].
Defined.

Lemma step_height (e : Event) (st : State) :
  500 <= Dimensions.height (dimensions st) ->
  500 <= Dimensions.height (dimensions (step e st)).
Proof.
  intros H.
  destruct e as [cx cy|cx cy b alt| |cx cy dy|k|k| | | |c|g| ]; simpl; try exact H.
  - unfold handleMouseMove. destruct (canvas st); [| exact H].
    destruct (isPanning st); [exact H |].
    destruct (isDragging st), (dragNode st), (processedData st); try exact H;
      unfold hover; destruct (findNodeAt _ _ _ _) as [[? ?]|];
      try destruct (findLinkAt _ _ _ _ _); exact H.
  - unfold handleMouseDown. destruct (canvas st), (processedData st); try exact H.
    destruct (_ || _)%bool; [exact H |].
    destruct (findNodeAt _ _ _ _) as [[? ?]|]; exact H.
  - unfold handleWheel. destruct (canvas st); exact H.
  - unfold handleKeyDown.
    destruct (_ || _)%bool, (_ && _)%bool, (canvas st); exact H.
  - unfold handleKeyUp. destruct (bool_decide _); exact H.
  - unfold updateDimensions. destruct c; [| exact H].
    unfold runGraphEffect. destruct (processGraphData _ _ _); simpl; apply Rmax_l.
  - unfold receiveGraphData, runGraphEffect.
    destruct (processGraphData _ _ _); exact H.
  - unfold animationFrame. destruct (processedData st); [| exact H].
    destruct (Nat.eqb _ _); exact H.
Qed.

(** X26: the viewport height used by the model and the simulation is
    never below 500: it is 600 on mounting, a resize stores
    [max 500 height], and no other event changes the dimensions; the width
    is stored as measured, without a floor. *)
Theorem height_at_least_500 (es : list Event) (g : option GraphData.t)
    (cv : option Rect.t) (rnd : nat -> R) (rect : Rect.t) :
  500 <= Dimensions.height (dimensions (run es (initialState g cv rnd)))
  /\ Dimensions.width
       (dimensions (step (Resize (Some rect)) (run es (initialState g cv rnd))))
     = Rect.width rect.
Proof.
  split.
  - assert (forall st, 500 <= Dimensions.height (dimensions st) ->
                       500 <= Dimensions.height (dimensions (run es st))) as Hrun.
    { unfold run. induction es as [|e es IH]; intros st H; simpl; [exact H |].
      apply IH, step_height, H. }
    apply Hrun. simpl. lra.
  - simpl. unfold updateDimensions, runGraphEffect.
    destruct (processGraphData _ _ _); reflexivity.
Qed.

(** X27: pressing Alt while a node is dragged suspends the drag: the mode
    becomes panning, pointer moves shift the view and leave every node
    where it is, frames still skip the pinned node, and releasing Alt
    resumes the drag of the same node. *)
Theorem alt_suspends_drag (st : State) (rect : Rect.t) (d : nat) (cx cy : R) (n : nat) :
  canvas st = Some rect ->
  mode st = DraggingNode d ->
  let st1 := step (KeyDown "Alt") st in
  mode st1 = Panning
  /\ processedData (step (MouseMove cx cy) st1) = processedData st
  /\ Transform.translateX (transform (step (MouseMove cx cy) st1))
     = Transform.translateX (transform st) + (cx - Rect.left rect - Rect.width rect / 2)
  /\ dragNode (frames n st1) = Some d
  /\ mode (step (KeyUp "Alt") st1) = DraggingNode d.
Proof.
  intros Hcv Hmode st1.
  apply mode_DraggingNode in Hmode as (Hpan & Hdrag & Hd).
  assert (st1 = setLastMousePos (Rect.width rect / 2, Rect.height rect / 2)
                  (setIsPanning true st)) as ->.
  { unfold st1. simpl. unfold handleKeyDown. rewrite Hpan, Hcv. reflexivity. }
  split; [reflexivity |].
  split; [simpl; unfold handleMouseMove; simpl; rewrite Hcv; reflexivity |].
  split; [simpl; unfold handleMouseMove; simpl; rewrite Hcv; reflexivity |].
  split; [rewrite frames_dragNode; exact Hd |].
  apply mode_DraggingNode. simpl. auto.
Qed.

Lemma alt_suspends_drag_witness :
  mode (step (KeyDown "Alt") draggingState) = Panning
  /\ mode (step (KeyUp "Alt") (step (KeyDown "Alt") draggingState)) = DraggingNode 0.
Proof.
  pose proof (alt_suspends_drag draggingState (Rect.mk 0 0 800 600) 0 0 0 0
                eq_refl eq_refl) as (H1 & _ & _ & _ & H2).
  split; [exact H1 | exact H2].
Defined.

(** ** The node object in the tooltip *)

Lemma runGraphEffect_tooltipLive (st : State) :
  tooltipLive st -> tooltipLive (runGraphEffect st).
Proof.
  intros H. unfold runGraphEffect.
  destruct (processGraphData _ _ _); [| exact H].
  intros i Hi. discriminate.
Qed.

Lemma step_tooltipLive (e : Event) (st : State) :
  tooltipLive st -> tooltipLive (step e st).
Proof.
  intros H.
  destruct e as [cx cy|cx cy b alt| |cx cy dy|k|k| | | |c|g| ]; simpl; try exact H.
  - unfold handleMouseMove. destruct (canvas st); [| exact H].
    destruct (isPanning st); [exact H |].
    destruct (isDragging st), (dragNode st), (processedData st) as [pd|] eqn:Hpd;
      try exact H; try (apply hover_tooltipLive; exact Hpd).
    eapply assignNodes_tooltipLive; [exact Hpd | apply length_alter | exact H].
  - unfold handleMouseDown. destruct (canvas st), (processedData st); try exact H.
    destruct (_ || _)%bool; [exact H |].
    destruct (findNodeAt _ _ _ _) as [[? ?]|]; exact H.
  - unfold handleWheel. destruct (canvas st); exact H.
  - unfold handleKeyDown.
    destruct (_ || _)%bool, (_ && _)%bool, (canvas st); exact H.
  - unfold handleKeyUp. destruct (bool_decide _); exact H.
  - unfold updateDimensions. destruct c; [| exact H].
    apply runGraphEffect_tooltipLive. exact H.
  - unfold receiveGraphData. apply runGraphEffect_tooltipLive. exact H.
  - unfold animationFrame. destruct (processedData st) as [pd|] eqn:Hpd; [| exact H].
    destruct (Nat.eqb _ _); [exact H |].
    eapply assignNodes_tooltipLive; [exact Hpd | apply length_simulateNodes | exact H].
Qed.

Lemma run_tooltipLive (es : list Event) (st : State) :
  tooltipLive st -> tooltipLive (run es st).
Proof.
  unfold run. revert st. induction es as [|e es IH]; intros st H; simpl; [exact H |].
  apply IH, step_tooltipLive, H.
Qed.

(** X28: the node tooltip holds the hovered node object itself.  When an
    idle pointer move has set a node tooltip, the tooltip's node is a node
    of the model, at some index [k]; after any number of frames the
    tooltip shows the node at [k] with the position and velocity which the
    frames have given it, at the screen point stored by the move, and the
    static part of the node is as it was.  After any further events the
    tooltip, for as long as it holds a node of the model, shows that node
    as it is then. *)
Theorem tooltip_follows_node (st : State) (rect : Rect.t) (pd : ProcessedGraphData.t)
    (cx cy : R) (tip : NodeTooltip.t) (n : nat) :
  canvas st = Some rect ->
  mode st = Idle ->
  processedData st = Some pd ->
  let st' := step (MouseMove cx cy) st in
  tooltipNode st' = Some tip ->
  (exists k pd' node',
      tooltipNodeIndex st' = Some k
      /\ ProcessedGraphData.nodes pd !! k = Some (NodeTooltip.node tip)
      /\ processedData (frames n st') = Some pd'
      /\ ProcessedGraphData.nodes pd' !! k = Some node'
      /\ tooltipNode (frames n st')
         = Some (NodeTooltip.mk node' (NodeTooltip.x tip) (NodeTooltip.y tip))
      /\ staticPart node' = staticPart (NodeTooltip.node tip))
  /\ (forall es, tooltipLive (run es st')).
Proof.
  intros Hcv Hmode Hpd st' Htip.
  apply mode_Idle in Hmode as [Hpan Hnodrag].
  assert (st' = hover (screenToGraph (transform st) (cx - Rect.left rect)
                         (cy - Rect.top rect)).1
                      (screenToGraph (transform st) (cx - Rect.left rect)
                         (cy - Rect.top rect)).2 pd st) as Hst'.
  { unfold st'. simpl. unfold handleMouseMove. rewrite Hcv, Hpan, Hpd.
    destruct Hnodrag as [-> | ->]; [reflexivity |].
    destruct (isDragging st); reflexivity. }
  assert (tooltipLive st') as Hlive
    by (rewrite Hst'; apply hover_tooltipLive; exact Hpd).
  assert (processedData st' = Some pd) as Hpd'
    by (rewrite Hst', processedData_hover; exact Hpd).
  split; [| intros es; apply run_tooltipLive; exact Hlive].
  assert (exists k, tooltipNodeIndex st' = Some k) as [k Hk].
  { revert Htip. rewrite Hst'. unfold hover.
    destruct (findNodeAt _ _ _ _) as [[k ?]|]; [intros _; exists k; reflexivity |].
    destruct (findLinkAt _ _ _ _ _); discriminate. }
  destruct (Hlive k Hk) as (pd0 & tip0 & Hpd0 & Htip0 & Hnode0).
  assert (pd0 = pd) as -> by congruence.
  assert (tip0 = tip) as -> by congruence.
  destruct (frames_static n st' pd Hpd' Hlive)
    as (pd1 & Hpd1 & _ & _ & _ & Hb & Hts & Hlive1 & _).
  apply blank_fields in Hb.
  destruct Hb as (_ & _ & _ & _ & _ & _ & _ & _ & _ & _ & Hidx).
  rewrite Hk in Hidx.
  destruct (Hlive1 k Hidx) as (pd2 & tip1 & Hpd2 & Htip1 & Hnode1).
  assert (pd2 = pd1) as -> by congruence.
  assert (tooltipStatic tip1 = tooltipStatic tip) as Hts'
    by (rewrite Htip1, Htip in Hts; simpl in Hts; congruence).
  unfold tooltipStatic in Hts'.
  pose proof (f_equal (fun p => p.1.1) Hts') as Hstatic.
  pose proof (f_equal (fun p => p.1.2) Hts') as Hx.
  pose proof (f_equal snd Hts') as Hy.
  simpl in Hstatic, Hx, Hy.
  exists k, pd1, (NodeTooltip.node tip1).
  split; [exact Hk |]. split; [exact Hnode0 |]. split; [exact Hpd1 |].
  split; [exact Hnode1 |]. split; [| exact Hstatic].
  rewrite Htip1. destruct tip1. simpl in *. congruence.
Qed.

Lemma tooltip_follows_node_witness :
  exists pd' node',
    processedData (frames 7 (step (MouseMove 350 300) hoverState)) = Some pd'
    /\ ProcessedGraphData.nodes pd' !! 0%nat = Some node'
    /\ NodeTooltip.node <$> tooltipNode (frames 7 (step (MouseMove 350 300) hoverState))
       = Some node'.
Proof.
  destruct (tooltip_follows_node hoverState (Rect.mk 0 0 800 600) _ 350 300 _ 7
              eq_refl eq_refl hoverState_model hoverState_tooltipNode)
    as [(k & pd' & node' & Hk & Hnode & Hpd' & Hnode' & Htip & _) _].
  assert (k = 0%nat) as ->.
  { assert (tooltipNodeIndex (step (MouseMove 350 300) hoverState) = Some 0%nat) as H0.
    { simpl. unfold handleMouseMove. rewrite hoverState_model. simpl.
      unfold hover. simpl. rewrite hoverState_nodeHit. reflexivity. }
    congruence. }
  exists pd', node'. split; [exact Hpd' |]. split; [exact Hnode' |].
  rewrite Htip. reflexivity.
Defined.
